(** * A shallow embedding of the session core of rvim (src/cli/buffer.rs,
    src/cli/editor.rs, src/cli/shell.rs, src/cli/window.rs, src/cli/tabs.rs).

    Rust strings are sequences of Unicode scalar values indexed by byte
    offset; [String::len] is the UTF-8 byte length.  Panics are modelled
    as [None] (for pure code) or as the [Hang] outcome of the shell monad
    (for calls that never return). *)

From Stdlib Require Import Ascii String.
From stdpp Require Import base list gmap strings.

(* ------------------------------------------------------------------ *)
(** ** Rust chars and strings *)

(** A Rust [char]: a Unicode scalar value. *)
Definition rchar := N.

(** A Rust [String]: its sequence of chars. *)
Definition rstring := list rchar.

(** Length of the UTF-8 encoding of one char ([char::len_utf8]). *)
Definition utf8_len (c : rchar) : nat :=
  if (c <? 128)%N then 1
  else if (c <? 2048)%N then 2
  else if (c <? 65536)%N then 3
  else 4.

(** [String::len]: the length in bytes. *)
Fixpoint str_len (s : rstring) : nat :=
  match s with
  | [] => 0
  | c :: s' => utf8_len c + str_len s'
  end.

(** An ASCII literal, as a Rust string. *)
Definition lit (s : string) : rstring :=
  map N_of_ascii (list_ascii_of_string s).

Definition nl : rchar := 10%N.
Definition cr : rchar := 13%N.

(** [String::insert(idx, ch)]: panics unless [idx] is a char boundary
    (which includes [idx <= len]). *)
Fixpoint str_insert (s : rstring) (idx : nat) (c : rchar) : option rstring :=
  match idx, s with
  | 0, _ => Some (c :: s)
  | S _, [] => None
  | S _, x :: xs =>
      if idx <? utf8_len x then None
      else option_map (cons x) (str_insert xs (idx - utf8_len x) c)
  end.

(** [String::remove(idx)]: panics if [idx] is not a char boundary or is
    the end of the string; returns the removed char. *)
Fixpoint str_remove (s : rstring) (idx : nat) : option (rchar * rstring) :=
  match idx, s with
  | _, [] => None
  | 0, x :: xs => Some (x, xs)
  | S _, x :: xs =>
      if idx <? utf8_len x then None
      else option_map (fun '(r, t) => (r, x :: t)) (str_remove xs (idx - utf8_len x))
  end.

(** [String::push(ch)]. *)
Definition str_push (s : rstring) (c : rchar) : rstring := s ++ [c].

(** [char::is_whitespace]: the Unicode White_Space property. *)
Definition is_whitespace (c : rchar) : bool :=
  ((9 <=? c) && (c <=? 13))%N || (c =? 32)%N || (c =? 133)%N || (c =? 160)%N
  || (c =? 5760)%N || ((8192 <=? c) && (c <=? 8202))%N
  || (c =? 8232)%N || (c =? 8233)%N || (c =? 8239)%N || (c =? 8287)%N
  || (c =? 12288)%N.

Fixpoint trim_start (s : rstring) : rstring :=
  match s with
  | c :: s' => if is_whitespace c then trim_start s' else s
  | [] => []
  end.

(** [str::trim]. *)
Definition trim (s : rstring) : rstring := rev (trim_start (rev (trim_start s))).

Definition rstring_eqb (s t : rstring) : bool := bool_decide (s = t).

(** [str::split_inclusive('\n')]: pieces ending in a newline, plus a last
    piece when the text does not end in one.  [cur] is the reversed
    current piece. *)
Fixpoint split_inclusive_nl (s : rstring) (cur : rstring) : list rstring :=
  match s with
  | [] => match cur with [] => [] | _ => [rev cur] end
  | c :: s' =>
      if (c =? nl)%N then rev (c :: cur) :: split_inclusive_nl s' []
      else split_inclusive_nl s' (c :: cur)
  end.

(** [strip_suffix(ch)]. *)
Definition strip_suffix (c : rchar) (s : rstring) : option rstring :=
  match rev s with
  | x :: r => if (x =? c)%N then Some (rev r) else None
  | [] => None
  end.

(** The line map of [str::lines]: drop a final ["\n"], then a ["\r"]
    before it. *)
Definition lines_map (line : rstring) : rstring :=
  match strip_suffix nl line with
  | None => line
  | Some l => match strip_suffix cr l with None => l | Some l' => l' end
  end.

(** [str::lines]. *)
Definition str_lines (s : rstring) : list rstring :=
  map lines_map (split_inclusive_nl s []).

(** [lines.join("\n")]. *)
Fixpoint join_nl (ls : list rstring) : rstring :=
  match ls with
  | [] => []
  | [l] => l
  | l :: ls' => l ++ nl :: join_nl ls'
  end.

(* ------------------------------------------------------------------ *)
(** ** The file system seen by [fs::read_to_string] and [fs::write] *)

(** Paths to file contents ([fs::write] writes the UTF-8 encoding of a
    [String], [fs::read_to_string] decodes it back). *)
Abbreviation FileSystem := (gmap rstring rstring).

(* ------------------------------------------------------------------ *)
(** ** The crate's error type (src/error.rs), the variants used here *)

Inductive Error :=
| Io
| Message (msg : string)
| ShellInputError (msg : string)
| TabExists (name : rstring)
| TabError (msg : string)
| TabNotFound (idx : nat).

Inductive result (A : Type) :=
| Ok (a : A)
| Err (e : Error).
Arguments Ok {A} a.
Arguments Err {A} e.

(** [fs::write(path, content)]: [write_ok] is whether the operating
    system accepts the write (permissions, free space, an existing
    directory, ...).  On failure the call returns an I/O error, and
    nothing is assumed about the file. *)
Definition fs_write (fs : FileSystem) (write_ok : bool) (path content : rstring)
    : result FileSystem :=
  if write_ok then Ok (<[path := content]> fs) else Err Io.

(* ------------------------------------------------------------------ *)
(** ** ropey's [Rope], as its sequence of chars *)

Definition Rope := list rchar.

(** [Rope::insert_char(char_idx, ch)]: panics if [char_idx > len_chars]. *)
Definition rope_insert_char (r : Rope) (pos : nat) (c : rchar) : option Rope :=
  if pos <=? length r then Some (take pos r ++ c :: drop pos r) else None.

(** [Rope::remove(a..b)]: panics unless [a <= b <= len_chars]. *)
Definition rope_remove (r : Rope) (a b : nat) : option Rope :=
  if (a <=? b) && (b <=? length r) then Some (take a r ++ drop b r) else None.

(* ------------------------------------------------------------------ *)
(** ** [Document] of src/cli/buffer.rs *)

Module Buf.

Record UndoTree := mkUndoTree {
  history : list (nat * rstring);
  current : nat;
}.

Definition UndoTree_new : UndoTree := mkUndoTree [] 0.

Record Document := mkDocument {
  rope : Rope;
  lines : list rstring;
  filename : option rstring;
  modified : bool;
  undo_tree : UndoTree;
}.

Definition Document_new : Document :=
  mkDocument [] [[]] None false UndoTree_new.

(** [Document::from_file]: [Rope::from_str(&content)] and
    [content.lines().map(String::from).collect()]. *)
Definition from_file (fs : FileSystem) (fname : rstring) : result Document :=
  match fs !! fname with
  | None => Err Io
  | Some content =>
      Ok (mkDocument content (str_lines content) (Some fname) false UndoTree_new)
  end.

(** [Document::save]: the document with [modified] cleared, and the file
    system after [fs::write].  On [Err] ([fs::write(..).map_err(Io)?]
    or no filename) the method has changed nothing of the Document:
    [modified] stays as it was. *)
Definition save (fs : FileSystem) (write_ok : bool) (d : Document)
    : result (Document * FileSystem) :=
  match filename d with
  | Some fname =>
      let content := join_nl (lines d) in
      match fs_write fs write_ok fname content with
      | Ok fs' => Ok (mkDocument (rope d) (lines d) (filename d) false (undo_tree d), fs')
      | Err e => Err e
      end
  | None => Err (Message "No filename specified")
  end.

(** [get_char_position]: [for i in 0..row { pos += lines[i].len() + 1 }],
    then [pos + col]; [None] is an out-of-range [lines[i]]. *)
Fixpoint row_offset (ls : list rstring) (row : nat) {struct row} : option nat :=
  match row with
  | 0 => Some 0
  | S r =>
      match ls with
      | [] => None
      | l :: ls' => option_map (fun p => str_len l + 1 + p) (row_offset ls' r)
      end
  end.

Definition get_char_position (d : Document) (row col : nat) : option nat :=
  option_map (fun p => p + col) (row_offset (lines d) row).

(** [Document::insert_char]; [None] is a panic. *)
Definition insert_char (d : Document) (row col : nat) (c : rchar) : option Document :=
  if length (lines d) <=? row then Some d
  else
    match lines d !! row with
    | None => None
    | Some line =>
        let line' :=
          if str_len line <? col then Some (str_push line c)
          else str_insert line col c in
        match line' with
        | None => None
        | Some l' =>
            let d1 := mkDocument (rope d) (<[row := l']> (lines d))
                        (filename d) (modified d) (undo_tree d) in
            match get_char_position d1 row col with
            | None => None
            | Some pos =>
                match rope_insert_char (rope d1) pos c with
                | None => None
                | Some r => Some (mkDocument r (lines d1) (filename d1) true (undo_tree d1))
                end
            end
        end
    end.

(** [Document::delete_char]; [None] is a panic. *)
Definition delete_char (d : Document) (row col : nat) : option (bool * Document) :=
  if length (lines d) <=? row then Some (false, d)
  else
    match lines d !! row with
    | None => None
    | Some line =>
        if col <? str_len line then
          match str_remove line col with
          | None => None
          | Some (_, l') =>
              let d1 := mkDocument (rope d) (<[row := l']> (lines d))
                          (filename d) (modified d) (undo_tree d) in
              match get_char_position d1 row col with
              | None => None
              | Some pos =>
                  match rope_remove (rope d1) pos (pos + 1) with
                  | None => None
                  | Some r => Some (true, mkDocument r (lines d1) (filename d1) true (undo_tree d1))
                  end
              end
          end
        else Some (false, d)
    end.

End Buf.

(* ------------------------------------------------------------------ *)
(** ** The editor's own [Document] of src/cli/editor.rs *)

Module Ed.

Record Document := mkDocument {
  lines : list rstring;
  filename : option rstring;
  modified : bool;
}.

Definition Document_new : Document := mkDocument [[]] None false.

(** [Document::from_file], with its [if lines.is_empty()] guard. *)
Definition from_file (fs : FileSystem) (fname : rstring) : result Document :=
  match fs !! fname with
  | None => Err Io
  | Some content =>
      let ls := str_lines content in
      let ls := if bool_decide (ls = []) then [[]] else ls in
      Ok (mkDocument ls (Some fname) false)
  end.

(** [Document::save] of src/cli/editor.rs: [fs::write(filename, content)?]
    returns the I/O error before [modified] is cleared. *)
Definition save (fs : FileSystem) (write_ok : bool) (d : Document)
    : result (Document * FileSystem) :=
  match filename d with
  | Some fname =>
      let content := join_nl (lines d) in
      match fs_write fs write_ok fname content with
      | Ok fs' => Ok (mkDocument (lines d) (filename d) false, fs')
      | Err e => Err e
      end
  | None => Err (Message "No filename specified")
  end.

(** [Document::insert_char] of src/cli/editor.rs; [None] is a panic. *)
Definition insert_char (d : Document) (row col : nat) (c : rchar) : option Document :=
  if length (lines d) <=? row then Some d
  else
    match lines d !! row with
    | None => None
    | Some line =>
        let line' :=
          if str_len line <? col then Some (str_push line c)
          else str_insert line col c in
        match line' with
        | None => None
        | Some l' => Some (mkDocument (<[row := l']> (lines d)) (filename d) true)
        end
    end.

(** [Document::delete_char] of src/cli/editor.rs; [None] is a panic. *)
Definition delete_char (d : Document) (row col : nat) : option (bool * Document) :=
  if length (lines d) <=? row then Some (false, d)
  else
    match lines d !! row with
    | None => None
    | Some line =>
        if col <? str_len line then
          match str_remove line col with
          | None => None
          | Some (_, l') => Some (true, mkDocument (<[row := l']> (lines d)) (filename d) true)
          end
        else Some (false, d)
    end.

End Ed.

(* ------------------------------------------------------------------ *)
(** ** The shell session of src/cli/shell.rs *)

Module Sh.

Inductive ShellOutput :=
| OutLine (l : rstring)
| Terminated.

(** What [Receiver::try_recv] reports. *)
Inductive TryRecv :=
| Recv (o : ShellOutput)
| Empty
| Disconnected.

(** What [Child::try_wait] reports: [Ok(Some status)], [Ok(None)], [Err]. *)
Inductive TryWait :=
| Exited
| StillRunning
| WaitFailed.

(** The world outside the foreground thread: the channel filled by the
    reader threads, the child process and its input pipe. *)
Record World := mkWorld {
  queue : list ShellOutput;   (** sent on the channel, not yet received *)
  producers : bool;           (** some [Sender] is still alive *)
  child_status : TryWait;     (** what [try_wait] reports *)
  stdin_write_ok : bool;      (** [writeln!] on the child's stdin succeeds *)
  stdin_flush_ok : bool;      (** [flush] on the child's stdin succeeds *)
  stdin_log : list rstring;   (** lines written to the child's stdin *)
}.

(** The [Arc<Mutex<..>>] fields of [Shell]. *)
Inductive Lock := LChild | LStdin | LRecv.

Definition Lock_eqb (a b : Lock) : bool :=
  match a, b with
  | LChild, LChild | LStdin, LStdin | LRecv, LRecv => true
  | _, _ => false
  end.

(** [Shell]; a handle is [Some id] while it is held. *)
Record Shell := mkShell {
  lines : list rstring;
  input_line : rstring;
  cursor_pos : nat;
  is_horizontal : bool;
  running : bool;
  command_history : list rstring;
  history_position : nat;
  child : option nat;
  child_stdin : option nat;
  output_receiver : option nat;
  reader_thread_handles : nat;
}.

Definition set_lines l s := mkShell l (input_line s) (cursor_pos s) (is_horizontal s)
  (running s) (command_history s) (history_position s) (child s) (child_stdin s)
  (output_receiver s) (reader_thread_handles s).
Definition set_input i s := mkShell (lines s) i (cursor_pos s) (is_horizontal s)
  (running s) (command_history s) (history_position s) (child s) (child_stdin s)
  (output_receiver s) (reader_thread_handles s).
Definition set_cursor c s := mkShell (lines s) (input_line s) c (is_horizontal s)
  (running s) (command_history s) (history_position s) (child s) (child_stdin s)
  (output_receiver s) (reader_thread_handles s).
Definition set_running r s := mkShell (lines s) (input_line s) (cursor_pos s)
  (is_horizontal s) r (command_history s) (history_position s) (child s)
  (child_stdin s) (output_receiver s) (reader_thread_handles s).
Definition set_history h p s := mkShell (lines s) (input_line s) (cursor_pos s)
  (is_horizontal s) (running s) h p (child s) (child_stdin s)
  (output_receiver s) (reader_thread_handles s).
Definition set_child c s := mkShell (lines s) (input_line s) (cursor_pos s)
  (is_horizontal s) (running s) (command_history s) (history_position s) c
  (child_stdin s) (output_receiver s) (reader_thread_handles s).
Definition set_receiver r s := mkShell (lines s) (input_line s) (cursor_pos s)
  (is_horizontal s) (running s) (command_history s) (history_position s) (child s)
  (child_stdin s) r (reader_thread_handles s).

Definition push_line (l : rstring) (s : Shell) : Shell := set_lines (lines s ++ [l]) s.

(** The foreground thread: the session, the world, and the mutexes whose
    guards it currently holds. *)
Record Mach := mkMach {
  sh : Shell;
  world : World;
  held : list Lock;
}.

(** [Hang]: the call does not return.  Locking a [std::sync::Mutex] whose
    guard the same thread holds "will not return" (it deadlocks or panics). *)
Inductive Outcome (A : Type) :=
| Ret (a : A) (m : Mach)
| Hang.
Arguments Ret {A} a m.
Arguments Hang {A}.

Definition M (A : Type) : Type := Mach -> Outcome A.

Definition mret {A} (a : A) : M A := fun m => Ret a m.
Definition mbind {A B} (p : M A) (k : A -> M B) : M B := fun m =>
  match p m with
  | Ret a m' => k a m'
  | Hang => Hang
  end.

Notation "'let*' x ':=' p 'in' q" := (mbind p (fun x => q))
  (at level 200, x binder, p at level 100, q at level 200).
Notation "p ;;; q" := (mbind p (fun _ => q)) (at level 100, q at level 200, right associativity).

Definition gets {A} (f : Shell -> A) : M A := fun m => Ret (f (sh m)) m.
Definition modify (f : Shell -> Shell) : M unit :=
  fun m => Ret tt (mkMach (f (sh m)) (world m) (held m)).
Definition modify_world (f : World -> World) : M unit :=
  fun m => Ret tt (mkMach (sh m) (f (world m)) (held m)).

Definition lock (l : Lock) : M unit := fun m =>
  if existsb (Lock_eqb l) (held m) then Hang
  else Ret tt (mkMach (sh m) (world m) (l :: held m)).

Definition unlock (l : Lock) : M unit := fun m =>
  Ret tt (mkMach (sh m) (world m) (List.filter (fun l' => negb (Lock_eqb l' l)) (held m))).

(** A guard's scope: lock, run, drop the guard. *)
Definition with_lock {A} (l : Lock) (p : M A) : M A :=
  lock l;;; let* a := p in unlock l;;; mret a.

Definition queue_len : M nat := fun m => Ret (length (queue (world m))) m.

Definition try_recv : M TryRecv := fun m =>
  let w := world m in
  match queue w with
  | o :: q =>
      Ret (Recv o) (mkMach (sh m) (mkWorld q (producers w) (child_status w)
                    (stdin_write_ok w) (stdin_flush_ok w) (stdin_log w)) (held m))
  | [] => Ret (if producers w then Empty else Disconnected) m
  end.

Definition try_wait : M TryWait := fun m => Ret (child_status (world m)) m.

(** [writeln!(stdin, "{}", l)]: [true] when it succeeds. *)
Definition write_line (l : rstring) : M bool := fun m =>
  let w := world m in
  if stdin_write_ok w then
    Ret true (mkMach (sh m) (mkWorld (queue w) (producers w) (child_status w)
               (stdin_write_ok w) (stdin_flush_ok w) (stdin_log w ++ [l])) (held m))
  else Ret false m.

Definition flush : M bool := fun m => Ret (stdin_flush_ok (world m)) m.

(** The [loop { match rx.try_recv() ... }] of [poll_output]; the loop
    receives at most the queued items and one more result, so [fuel]
    [length queue + 1] never runs out. *)
Fixpoint drain (fuel : nat) : M unit :=
  match fuel with
  | 0 => mret tt
  | S f =>
      let* r := try_recv in
      match r with
      | Recv (OutLine l) => modify (push_line l);;; drain f
      | Recv Terminated => drain f
      | Empty => mret tt
      | Disconnected =>
          modify (set_running false);;;
          with_lock LRecv (modify (set_receiver None))
      end
  end.

(** [Shell::poll_output].  The guard [rx_guard] of [output_receiver] is
    held for the whole drain; the temporary guard of
    [&mut *self.child.lock().unwrap()] in the [if let] is held through
    both of its branches. *)
Definition poll_output : M unit :=
  with_lock LRecv (
    let* rx := gets output_receiver in
    match rx with
    | Some _ => let* n := queue_len in drain (S n)
    | None => mret tt
    end);;;
  let* r := gets running in
  if r then
    with_lock LChild (
      let* c := gets child in
      match c with
      | Some _ =>
          let* st := try_wait in
          match st with
          | Exited | WaitFailed =>
              modify (set_running false);;;
              with_lock LChild (modify (set_child None))
          | StillRunning => mret tt
          end
      | None =>
          let* rx := with_lock LRecv (gets output_receiver) in
          if bool_decide (rx = None) then modify (set_running false) else mret tt
      end)
  else mret tt.

Definition exit_cmd : rstring := lit "exit".

Definition stdin_unavailable_msg : rstring := lit "Shell not running or stdin unavailable.".

(** [Shell::execute_command]; [sleep] is how the world moves on during
    [thread::sleep(Duration::from_millis(50))]. *)
Definition execute_command (sleep : World -> World) : M (result unit) :=
  poll_output;;;
  let* inp := gets input_line in
  if rstring_eqb (trim inp) exit_cmd then
    with_lock LStdin (
      let* si := gets child_stdin in
      match si with
      | Some _ =>
          let* ok := write_line exit_cmd in
          if ok then (let* _ := flush in mret tt) else mret tt
      | None => mret tt
      end);;;
    modify (set_running false);;;
    modify (set_input []);;;
    modify (set_cursor 0);;;
    mret (Ok tt)
  else
    let* r := with_lock LStdin (
      let* si := gets child_stdin in
      match si with
      | Some _ =>
          if negb (bool_decide (inp = [])) then
            (if negb (bool_decide (trim inp = [])) then
               modify (fun s => let h := command_history s ++ [inp] in
                                set_history h (length h) s)
             else mret tt);;;
            let* ok := write_line inp in
            if ok then
              (let* ok' := flush in
               if ok' then mret (Ok tt)
               else mret (Err (ShellInputError "Failed to flush shell stdin")))
            else mret (Err (ShellInputError "Failed to write to shell"))
          else
            let* ok := write_line [] in
            if ok then
              (let* ok' := flush in
               if ok' then mret (Ok tt)
               else mret (Err (ShellInputError "Failed to flush shell stdin")))
            else mret (Err (ShellInputError "Failed to write newline"))
      | None =>
          modify (push_line stdin_unavailable_msg);;;
          modify (set_running false);;;
          mret (Ok tt)
      end) in
    match r with
    | Err e => mret (Err e)
    | Ok _ =>
        modify (set_input []);;;
        modify (set_cursor 0);;;
        modify_world sleep;;;
        poll_output;;;
        mret (Ok tt)
    end.

(** Running a method from the event loop: no guard is held. *)
Definition run {A} (p : M A) (s : Shell) (w : World) : Outcome A := p (mkMach s w []).

(** [a - b] on [usize] with overflow checks (the default dev profile):
    [None] is the "attempt to subtract with overflow" panic. *)
Definition usize_sub (a b : nat) : option nat := if b <=? a then Some (a - b) else None.

(** [Shell::history_up]; [None] is a panic. *)
Definition history_up (s : Shell) : option Shell :=
  if negb (bool_decide (command_history s = [])) && (0 <? history_position s) then
    let p := history_position s - 1 in
    match command_history s !! p with
    | Some e => Some (set_cursor (str_len e) (set_input e (set_history (command_history s) p s)))
    | None => None
    end
  else Some s.

(** [Shell::history_down]; [None] is a panic.  [&&] evaluates its right
    operand only when the history is non-empty; the [else if] condition
    always evaluates [self.command_history.len() - 1]. *)
Definition history_down (s : Shell) : option Shell :=
  let h := command_history s in
  let else_branch :=
    match usize_sub (length h) 1 with
    | None => None
    | Some last =>
        if history_position s =? last then
          Some (set_cursor 0 (set_input [] (set_history h (length h) s)))
        else Some s
    end in
  if negb (bool_decide (h = [])) then
    match usize_sub (length h) 1 with
    | None => None
    | Some last =>
        if history_position s <? last then
          let p := history_position s + 1 in
          match h !! p with
          | Some e => Some (set_cursor (str_len e) (set_input e (set_history h p s)))
          | None => None
          end
        else else_branch
    end
  else else_branch.

(** [Shell::input_char]: push at the end, insert elsewhere ([String::insert]
    takes the byte index [cursor_pos]); the cursor moves by one. *)
Definition input_char (s : Shell) (c : rchar) : option Shell :=
  let l := input_line s in
  let l' := if cursor_pos s =? str_len l then Some (str_push l c)
            else str_insert l (cursor_pos s) c in
  match l' with
  | None => None
  | Some l' => Some (set_cursor (cursor_pos s + 1) (set_input l' s))
  end.

(** [Shell::input_backspace]. *)
Definition input_backspace (s : Shell) : option Shell :=
  if 0 <? cursor_pos s then
    let p := cursor_pos s - 1 in
    match str_remove (input_line s) p with
    | None => None
    | Some (_, l') => Some (set_input l' (set_cursor p s))
    end
  else Some s.

(** [Shell::input_delete]. *)
Definition input_delete (s : Shell) : option Shell :=
  if cursor_pos s <? str_len (input_line s) then
    match str_remove (input_line s) (cursor_pos s) with
    | None => None
    | Some (_, l') => Some (set_input l' s)
    end
  else Some s.

(** [Shell::move_cursor_left]. *)
Definition move_cursor_left (s : Shell) : Shell :=
  if 0 <? cursor_pos s then set_cursor (cursor_pos s - 1) s else s.

(** [Shell::move_cursor_right]. *)
Definition move_cursor_right (s : Shell) : Shell :=
  if cursor_pos s <? str_len (input_line s) then set_cursor (cursor_pos s + 1) s else s.

(** What the operating system does for [spawn_system_shell]:
    [Command::spawn] succeeds (the child's pid and the new channel), or
    fails with an I/O error (its text), or the piped stdout or stderr
    cannot be taken. *)
Inductive SpawnOutcome :=
| SpawnOk (pid rx : nat)
| SpawnIoError (e : rstring)
| NoStdout
| NoStderr.

Definition set_handles n s := mkShell (lines s) (input_line s) (cursor_pos s)
  (is_horizontal s) (running s) (command_history s) (history_position s) (child s)
  (child_stdin s) (output_receiver s) n.

(** [Shell::spawn_system_shell]: on success it stores the child, the
    receiver and the two reader threads' handles; it never stores the
    child's stdin.  [Err] carries the error's display text. *)
Definition spawn_system_shell (sp : SpawnOutcome) (s : Shell) : Shell + rstring :=
  match sp with
  | SpawnIoError e => inr (lit "Failed to spawn shell: Failed to spawn shell: " ++ e)
  | NoStdout => inr (lit "Failed to spawn shell: Failed to capture stdout")
  | NoStderr => inr (lit "Failed to spawn shell: Failed to capture stderr")
  | SpawnOk pid rx =>
      let s := set_child (Some pid) s in
      let s := set_receiver (Some rx) s in
      let s := set_handles (reader_thread_handles s + 1) s in
      inl (set_handles (reader_thread_handles s + 1) s)
  end.

Definition shell_banner : list rstring :=
  [lit "RVim Interactive Shell"; lit "Spawning system shell..."].

Definition spawned_msg : rstring :=
  lit "System shell spawned. Type 'exit' in the shell to close it.".

(** [Shell::new]. *)
Definition Shell_new (is_horizontal : bool) (sp : SpawnOutcome) : Shell :=
  let s0 := mkShell shell_banner [] 0 is_horizontal true [] 0 None None None 0 in
  let s1 :=
    match spawn_system_shell sp s0 with
    | inr e => set_running false (push_line (lit "Error spawning shell: " ++ e) s0)
    | inl s => push_line spawned_msg s
    end in
  push_line [] s1.

End Sh.

(* ------------------------------------------------------------------ *)
(** ** Windows of src/cli/window.rs *)

Module Win.

Inductive SplitType := Horizontal | Vertical.

Record Window := mkWindow {
  x : N;
  y : N;
  width : N;
  height : N;
  cursor_x : N;
  cursor_y : N;
  offset_x : N;
  offset_y : N;
  file_path : option rstring;
  is_active : bool;
}.

(** [Window::new]. *)
Definition Window_new (x y width height : N) : Window :=
  mkWindow x y width height 0 0 0 0 None true.

Definition set_file_path (p : option rstring) (w : Window) : Window :=
  mkWindow (x w) (y w) (width w) (height w) (cursor_x w) (cursor_y w)
    (offset_x w) (offset_y w) p (is_active w).

(** [a + b] on [usize] with overflow checks (the default dev profile, as
    for [usize_sub] in the shell): [None] is the "attempt to add with
    overflow" panic. *)
Definition usize_add (a b : N) : option N :=
  if (a + b <? 2 ^ 64)%N then Some (a + b)%N else None.

(** [Window::split]; [None] is a panic.  It never returns [Err]. *)
Definition split (self : Window) (split_type : SplitType) : option (result (Window * Window)) :=
  match split_type with
  | Horizontal =>
      let top_height := (height self / 2)%N in
      let bottom_height := (height self - top_height)%N in
      let top := Window_new (x self) (y self) (width self) top_height in
      match usize_add (y self) top_height with
      | None => None
      | Some yb =>
          let bottom := Window_new (x self) yb (width self) bottom_height in
          let file_path := file_path self in
          let bottom := set_file_path file_path bottom in
          Some (Ok (top, bottom))
      end
  | Vertical =>
      let left_width := (width self / 2)%N in
      let right_width := (width self - left_width)%N in
      let left := Window_new (x self) (y self) left_width (height self) in
      match usize_add (x self) left_width with
      | None => None
      | Some xr =>
          let right := Window_new xr (y self) right_width (height self) in
          let file_path := file_path self in
          let right := set_file_path file_path right in
          Some (Ok (left, right))
      end
  end.

End Win.

(* ------------------------------------------------------------------ *)
(** ** The tab manager of src/cli/tabs.rs *)

Module Tabs.

Section WithBuffer.

Context {Buffer : Type}.

Record Tab := mkTab {
  id : nat;
  name : rstring;
  buffer : Buffer;
}.

Record TabManager := mkTabManager {
  tabs : list Tab;
  current_tab : nat;
  tab_map : gmap rstring nat;
  next_id : nat;
}.

(** [TabManager::new]. *)
Definition TabManager_new : TabManager := mkTabManager [] 0 ∅ 0.

(** [TabManager::create_tab]: the result and the manager afterwards. *)
Definition create_tab (tm : TabManager) (nm : rstring) (b : Buffer) : result nat * TabManager :=
  if bool_decide (is_Some (tab_map tm !! nm)) then (Err (TabExists nm), tm)
  else
    let i := next_id tm in
    (Ok i, mkTabManager (tabs tm ++ [mkTab i nm b]) (current_tab tm)
             (<[nm := i]> (tab_map tm)) (S i)).

Definition set_current (c : nat) (tm : TabManager) : TabManager :=
  mkTabManager (tabs tm) c (tab_map tm) (next_id tm).

(** [TabManager::switch_to_next_tab]. *)
Definition switch_to_next_tab (tm : TabManager) : result unit * TabManager :=
  if bool_decide (tabs tm = []) then (Err (TabError "No tabs available"), tm)
  else (Ok tt, set_current ((current_tab tm + 1) mod length (tabs tm)) tm).

(** [TabManager::switch_to_prev_tab]. *)
Definition switch_to_prev_tab (tm : TabManager) : result unit * TabManager :=
  if bool_decide (tabs tm = []) then (Err (TabError "No tabs available"), tm)
  else
    (Ok tt, set_current (if current_tab tm =? 0 then length (tabs tm) - 1
                         else current_tab tm - 1) tm).

(** [TabManager::switch_to_tab]. *)
Definition switch_to_tab (tm : TabManager) (idx : nat) : result unit * TabManager :=
  if idx <? length (tabs tm) then (Ok tt, set_current idx tm)
  else (Err (TabNotFound idx), tm).

(** [TabManager::current_buffer]. *)
Definition current_buffer (tm : TabManager) : result Buffer :=
  match tabs tm !! current_tab tm with
  | Some t => Ok (buffer t)
  | None => Err (TabError "No active tab")
  end.

(** [TabManager::get_current_tab]. *)
Definition get_current_tab (tm : TabManager) : option Tab := tabs tm !! current_tab tm.

(** [TabManager::tab_list]. *)
Definition tab_list (tm : TabManager) : list (nat * rstring) :=
  map (fun t => (id t, name t)) (tabs tm).

End WithBuffer.

End Tabs.

(* ------------------------------------------------------------------ *)
(** ** The editor's buffer list (src/cli/editor.rs) *)

(** The fields of [Editor] that [open_shell] and [close_current_buffer]
    read or write; the other fields (terminal, Lua state, file tree,
    windows, ...) are untouched by them. *)
Module EdBuffers.

Inductive Mode := Normal | Insert | Visual | Command | FileTree | ShellMode.

Section WithBuffer.

Context {Buffer : Type}.

Record Editor := mkEditor {
  buffers : list Buffer;
  active_buffer : nat;
  mode : Mode;
  previous_mode : Mode;
}.

(** [Editor::open_shell], given the buffer [Buffer::from_shell] built. *)
Definition open_shell (e : Editor) (shell_buffer : Buffer) : Editor :=
  let bs := buffers e ++ [shell_buffer] in
  mkEditor bs (length bs - 1) ShellMode (mode e).

(** [Vec::remove]: panics when the index is out of bounds. *)
Definition vec_remove (l : list Buffer) (i : nat) : option (list Buffer) :=
  if i <? length l then Some (take i l ++ drop (S i) l) else None.

(** [Editor::close_current_buffer]; [None] is a panic. *)
Definition close_current_buffer (e : Editor) : option Editor :=
  if length (buffers e) <=? 1 then Some e
  else
    match vec_remove (buffers e) (active_buffer e) with
    | None => None
    | Some bs =>
        let a := if length bs <=? active_buffer e then length bs - 1 else active_buffer e in
        Some (mkEditor bs a (mode e) (previous_mode e))
    end.

End WithBuffer.

End EdBuffers.

(* ------------------------------------------------------------------ *)
(** ** Predicates used by the statements *)

Definition no_nl (l : rstring) : bool := forallb (fun ch => negb (ch =? nl)%N) l.

Definition ends_with_cr (l : rstring) : bool :=
  match rev l with
  | ch :: _ => (ch =? cr)%N
  | [] => false
  end.

(** Line sequences that [join("\n")] followed by [str::lines] gives back:
    no line holds a newline, no line but the last ends in ['\r'], and
    the last line is not empty. *)
Fixpoint roundtrip_safe (ls : list rstring) : bool :=
  match ls with
  | [] => false
  | [l] => no_nl l && negb (bool_decide (l = []))
  | l :: ls' => no_nl l && negb (ends_with_cr l) && roundtrip_safe ls'
  end.

Definition is_ascii (l : rstring) : bool := forallb (fun ch => (ch <? 128)%N) l.

(* ------------------------------------------------------------------ *)
(** * Lemmas on the string functions *)

Lemma split_inclusive_nl_app (l s cur : rstring) :
  no_nl l = true ->
  split_inclusive_nl (l ++ s) cur = split_inclusive_nl s (rev l ++ cur).
Proof.
  revert cur. induction l as [|a l IH]; intros cur H; [reflexivity|].
  simpl in H. apply andb_prop in H as [Ha Hl].
  simpl. destruct (a =? nl)%N eqn:E; [discriminate|].
  rewrite IH by exact Hl. rewrite <- app_assoc. reflexivity.
Qed.

Lemma strip_suffix_app (c : rchar) (l : rstring) :
  strip_suffix c (l ++ [c]) = Some l.
Proof.
  unfold strip_suffix. rewrite rev_app_distr. simpl.
  rewrite N.eqb_refl, rev_involutive. reflexivity.
Qed.

Lemma strip_suffix_none (c : rchar) (l : rstring) :
  match rev l with ch :: _ => (ch =? c)%N | [] => false end = false ->
  strip_suffix c l = None.
Proof.
  unfold strip_suffix. destruct (rev l) as [|ch r]; [reflexivity|].
  intros H. rewrite H. reflexivity.
Qed.

Lemma no_nl_last (l : rstring) :
  no_nl l = true ->
  match rev l with ch :: _ => (ch =? nl)%N | [] => false end = false.
Proof.
  intros H. unfold no_nl in H. rewrite forallb_forall in H.
  destruct (rev l) as [|ch r] eqn:E; [reflexivity|].
  assert (Hin : List.In ch l).
  { apply in_rev. rewrite E. left. reflexivity. }
  specialize (H ch Hin). destruct (ch =? nl)%N; [discriminate|reflexivity].
Qed.

Lemma lines_map_plain (l : rstring) :
  no_nl l = true -> lines_map l = l.
Proof.
  intros H. unfold lines_map. rewrite strip_suffix_none by (apply no_nl_last; exact H).
  reflexivity.
Qed.

Lemma lines_map_nl (l : rstring) :
  ends_with_cr l = false -> lines_map (l ++ [nl]) = l.
Proof.
  intros H. unfold lines_map. rewrite strip_suffix_app.
  rewrite strip_suffix_none by exact H. reflexivity.
Qed.

(** [str::lines] inverts [join("\n")] on the sequences it can. *)
Lemma str_lines_join_nl (ls : list rstring) :
  roundtrip_safe ls = true -> str_lines (join_nl ls) = ls.
Proof.
  unfold str_lines. induction ls as [|l ls IH]; [discriminate|].
  destruct ls as [|l2 ls].
  - simpl. intros H. apply andb_prop in H as [Hnl Hne].
    rewrite <- (app_nil_r l) at 1. rewrite split_inclusive_nl_app by exact Hnl.
    rewrite app_nil_r. simpl.
    destruct (rev l) as [|a r] eqn:E.
    + apply (f_equal (@rev _)) in E. rewrite rev_involutive in E. subst l.
      discriminate.
    + rewrite <- E. simpl. rewrite rev_involutive, lines_map_plain by exact Hnl. reflexivity.
  - intros H. change (roundtrip_safe (l :: l2 :: ls)) with
      (no_nl l && negb (ends_with_cr l) && roundtrip_safe (l2 :: ls)) in H.
    apply andb_prop in H as [H Hrest]. apply andb_prop in H as [Hnl Hcr].
    apply negb_true_iff in Hcr.
    change (join_nl (l :: l2 :: ls)) with (l ++ nl :: join_nl (l2 :: ls)).
    rewrite split_inclusive_nl_app by exact Hnl. simpl.
    rewrite app_nil_r, rev_involutive, lines_map_nl by exact Hcr.
    f_equal. exact (IH Hrest).
Qed.

(* ------------------------------------------------------------------ *)
(** * Documents: save and reload *)

Module DocumentSave.

Definition path_a : rstring := lit "a.txt".

Definition doc_trailing_empty : Buf.Document :=
  Buf.mkDocument (lit "a") [lit "a"; []] (Some path_a) true Buf.UndoTree_new.

(** C4 (counterexample): a Document whose last line is empty does not
    survive [save] then [from_file]: ["a"; ""] is written as ["a\n"],
    which reads back as the single line ["a"]. *)
Lemma save_reload_drops_trailing_empty_line :
  exists d' fs' d'',
    Buf.save ∅ true doc_trailing_empty = Ok (d', fs') /\
    Buf.from_file fs' path_a = Ok d'' /\
    Buf.lines d'' = [lit "a"] /\
    Buf.lines d'' <> Buf.lines doc_trailing_empty.
Proof.
  eexists _, _, _. split; [reflexivity|]. split; [reflexivity|].
  split; [reflexivity|]. discriminate.
Qed.

(** C4 (amended): for a Document with a filename whose lines hold no
    newline, where no line but the last ends in a carriage return and the
    last line is not empty, [save] fails with an I/O error when the write
    fails; when the write succeeds, [save] succeeds and [from_file] on
    the same path gives back the same line sequence. *)
Theorem save_then_from_file_roundtrip (fs : FileSystem) (d : Buf.Document) (f : rstring)
    (write_ok : bool) :
  Buf.filename d = Some f ->
  roundtrip_safe (Buf.lines d) = true ->
  (write_ok = false -> Buf.save fs write_ok d = Err Io) /\
  (write_ok = true ->
   exists d' fs' d'',
     Buf.save fs write_ok d = Ok (d', fs') /\
     Buf.from_file fs' f = Ok d'' /\
     Buf.lines d'' = Buf.lines d).
Proof.
  intros Hf Hsafe. unfold Buf.save, fs_write. rewrite Hf.
  split; intros ->; [reflexivity|].
  eexists _, _, _. split; [reflexivity|].
  unfold Buf.from_file. rewrite lookup_insert_eq. split; [reflexivity|].
  simpl. apply str_lines_join_nl. exact Hsafe.
Qed.

Definition doc_two_lines : Buf.Document :=
  Buf.mkDocument (lit "ab") [lit "ab"; lit "cd"] (Some path_a) true Buf.UndoTree_new.

Lemma save_then_from_file_roundtrip_witness :
  Buf.filename doc_two_lines = Some path_a /\
  roundtrip_safe (Buf.lines doc_two_lines) = true /\
  (true = false -> Buf.save ∅ true doc_two_lines = Err Io) /\
  (true = true ->
   exists d' fs' d'',
     Buf.save ∅ true doc_two_lines = Ok (d', fs') /\
     Buf.from_file fs' path_a = Ok d'' /\
     Buf.lines d'' = Buf.lines doc_two_lines).
Proof.
  split; [reflexivity|]. split; [vm_compute; reflexivity|].
  apply (save_then_from_file_roundtrip ∅ doc_two_lines path_a true); [reflexivity|].
  vm_compute. reflexivity.
Defined.

(** C6 (code bug): reading an empty file, [Document::from_file] of
    src/cli/buffer.rs yields a Document with no line at all, while the
    editor's own [Document::from_file] guards this case with one empty
    line. *)
Theorem buffer_from_file_empty_has_no_line :
  let fs : FileSystem := {[ path_a := [] ]} in
  (exists d, Buf.from_file fs path_a = Ok d /\ Buf.lines d = []) /\
  (exists d, Ed.from_file fs path_a = Ok d /\ Ed.lines d = [[]]).
Proof.
  split; eexists; split; reflexivity.
Qed.

End DocumentSave.

(* ------------------------------------------------------------------ *)
(** * Lemmas on byte-indexed editing of ASCII lines *)

Lemma utf8_len_ascii (a : rchar) : (a <? 128)%N = true -> utf8_len a = 1.
Proof. intros H. unfold utf8_len. rewrite H. reflexivity. Qed.

Lemma str_len_ascii (l : rstring) : is_ascii l = true -> str_len l = length l.
Proof.
  induction l as [|a l IH]; [reflexivity|].
  simpl. intros H. apply andb_prop in H as [Ha Hl].
  rewrite utf8_len_ascii by exact Ha. rewrite IH by exact Hl. reflexivity.
Qed.

Lemma str_insert_ascii (l : rstring) (col : nat) (c : rchar) :
  is_ascii l = true -> col <= length l ->
  str_insert l col c = Some (take col l ++ c :: drop col l).
Proof.
  revert col. induction l as [|a l IH]; intros col Hl Hcol.
  - destruct col; [reflexivity|simpl in Hcol; lia].
  - destruct col as [|k]; [reflexivity|].
    simpl in Hl. apply andb_prop in Hl as [Ha Hl].
    cbn [str_insert]. rewrite utf8_len_ascii by exact Ha.
    replace (S k <? 1) with false by (symmetry; apply Nat.ltb_ge; lia).
    replace (S k - 1) with k by lia.
    rewrite IH by (simpl in Hcol; first [exact Hl | lia]). reflexivity.
Qed.

Lemma str_remove_inserted_ascii (l : rstring) (col : nat) (c : rchar) :
  is_ascii l = true -> col <= length l ->
  str_remove (take col l ++ c :: drop col l) col = Some (c, l).
Proof.
  revert col. induction l as [|a l IH]; intros col Hl Hcol.
  - destruct col; [reflexivity|simpl in Hcol; lia].
  - destruct col as [|k]; [reflexivity|].
    simpl in Hl. apply andb_prop in Hl as [Ha Hl].
    cbn [take drop app str_remove]. rewrite utf8_len_ascii by exact Ha.
    replace (S k <? 1) with false by (symmetry; apply Nat.ltb_ge; lia).
    replace (S k - 1) with k by lia.
    rewrite IH by (simpl in Hcol; first [exact Hl | lia]). reflexivity.
Qed.

Lemma str_len_inserted_ascii (l : rstring) (col : nat) (c : rchar) :
  is_ascii l = true -> col <= length l ->
  col < str_len (take col l ++ c :: drop col l).
Proof.
  revert col. induction l as [|a l IH]; intros col Hl Hcol.
  - destruct col; simpl in *; [unfold utf8_len; repeat case_match; lia | lia].
  - simpl in Hl. apply andb_prop in Hl as [Ha Hl].
    destruct col as [|k].
    + simpl. unfold utf8_len. repeat case_match; lia.
    + simpl. rewrite utf8_len_ascii by exact Ha.
      specialize (IH k Hl ltac:(simpl in Hcol; lia)). lia.
Qed.

Lemma row_offset_insert (ls : list rstring) (row : nat) (l : rstring) :
  Buf.row_offset (<[row := l]> ls) row = Buf.row_offset ls row.
Proof.
  revert ls. induction row as [|r IH]; intros ls; [reflexivity|].
  destruct ls as [|l0 ls]; [reflexivity|].
  simpl. rewrite IH. reflexivity.
Qed.

Lemma row_offset_some (ls : list rstring) (row : nat) :
  row < length ls -> exists p, Buf.row_offset ls row = Some p.
Proof.
  revert ls. induction row as [|r IH]; intros ls H; [eauto|].
  destruct ls as [|l0 ls]; simpl in H; [lia|].
  destruct (IH ls ltac:(lia)) as [p Hp]. simpl. rewrite Hp. eauto.
Qed.

Lemma length_join_nl_cons (l : rstring) (ls : list rstring) :
  ls <> [] -> length (join_nl (l :: ls)) = length l + 1 + length (join_nl ls).
Proof.
  intros H. destruct ls as [|l2 ls]; [congruence|].
  change (join_nl (l :: l2 :: ls)) with (l ++ nl :: join_nl (l2 :: ls)).
  rewrite length_app. simpl. lia.
Qed.

Lemma row_offset_bound (ls : list rstring) (row p : nat) (line : rstring) :
  forallb is_ascii ls = true ->
  Buf.row_offset ls row = Some p -> ls !! row = Some line ->
  p + length line <= length (join_nl ls).
Proof.
  revert ls p. induction row as [|r IH]; intros ls p Hasc Hp Hl.
  - destruct ls as [|l0 ls]; [discriminate|].
    simpl in Hp, Hl. injection Hp as <-. injection Hl as <-.
    destruct ls as [|l2 ls]; [simpl; lia|].
    rewrite length_join_nl_cons by discriminate. lia.
  - destruct ls as [|l0 ls]; [discriminate|].
    simpl in Hasc. apply andb_prop in Hasc as [H0 Hasc].
    simpl in Hp, Hl.
    destruct (Buf.row_offset ls r) as [p'|] eqn:E; [|discriminate].
    injection Hp as <-.
    specialize (IH ls p' Hasc E Hl).
    destruct ls as [|l2 ls]; [discriminate|].
    rewrite length_join_nl_cons by discriminate.
    rewrite str_len_ascii by exact H0. lia.
Qed.

Lemma rope_insert_then_remove (r : Rope) (pos : nat) (c : rchar) :
  pos <= length r ->
  exists r', rope_insert_char r pos c = Some r' /\ rope_remove r' pos (pos + 1) = Some r.
Proof.
  intros H. unfold rope_insert_char. rewrite (proj2 (Nat.leb_le _ _) H).
  eexists. split; [reflexivity|]. unfold rope_remove.
  rewrite length_app. simpl. rewrite length_take_le, length_drop by exact H.
  replace ((pos <=? pos + 1) && (pos + 1 <=? pos + S (length r - pos))) with true
    by (symmetry; apply andb_true_iff; split; apply Nat.leb_le; lia).
  rewrite take_app_length' by (rewrite length_take_le by exact H; reflexivity).
  rewrite (drop_app_add' (take pos r) (c :: drop pos r) pos 1)
    by (rewrite length_take_le by exact H; reflexivity).
  simpl. rewrite drop_0, take_drop. reflexivity.
Qed.

Lemma ascii_line_of_doc (ls : list rstring) (row : nat) (line : rstring) :
  forallb is_ascii ls = true -> ls !! row = Some line -> is_ascii line = true.
Proof.
  intros Hasc Hl. apply list_elem_of_lookup_2 in Hl.
  apply list_elem_of_In in Hl. rewrite forallb_forall in Hasc. auto.
Qed.

Module DocumentEdit.

(** The Document read from a file holding ["ab\ncd"]. *)
Definition doc_two_lines_ed : Buf.Document :=
  Buf.mkDocument (lit "ab" ++ nl :: lit "cd") [lit "ab"; lit "cd"] (Some (lit "a.txt"))
    false Buf.UndoTree_new.

(** C10 (code bug): on a new Document, [insert_char(0, 5, 'a')] appends
    ['a'] to line 0 but then inserts into the rope at position
    [0 + 5] (the requested column, not the appended one); the rope is
    empty, so ropey's [insert_char] panics. *)
Theorem insert_char_past_end_panics :
  Buf.insert_char Buf.Document_new 0 5 97%N = None.
Proof. reflexivity. Qed.

Definition e_acute : rchar := 233%N.

(** The Document read from a file holding the single char ['é'] (two
    bytes in UTF-8). *)
Definition doc_e_acute : Buf.Document :=
  Buf.mkDocument [e_acute] [[e_acute]] (Some (lit "e.txt")) false Buf.UndoTree_new.

(** C5 (counterexample): column 1 is within the bounds of the line ["é"]
    (its length is 2 bytes), but it is not a char boundary:
    [String::insert] panics, so no Document comes out to delete from. *)
Lemma insert_char_inside_multibyte_panics :
  Buf.lines doc_e_acute !! 0 = Some [e_acute] /\
  1 <= str_len [e_acute] /\
  Buf.insert_char doc_e_acute 0 1 97%N = None.
Proof. split; [reflexivity|]. split; [vm_compute; lia|]. reflexivity. Qed.

(** C5 (amended): for a Document whose lines are ASCII and whose rope
    holds at least the text of its lines joined by newlines, and every
    [row] that is a line and [col] at most that line's length,
    [insert_char(row, col, c)] then [delete_char(row, col)] succeeds,
    removes a char, and restores every line (and the rope). *)
Theorem insert_then_delete_restores (d : Buf.Document) (row col : nat) (c : rchar)
    (line : rstring) :
  Buf.lines d !! row = Some line ->
  col <= str_len line ->
  forallb is_ascii (Buf.lines d) = true ->
  length (join_nl (Buf.lines d)) <= length (Buf.rope d) ->
  exists d1 d2,
    Buf.insert_char d row col c = Some d1 /\
    Buf.delete_char d1 row col = Some (true, d2) /\
    Buf.lines d2 = Buf.lines d /\
    Buf.rope d2 = Buf.rope d.
Proof.
  destruct d as [r ls f m u]; simpl.
  intros Hl Hcol Hasc Hrope.
  pose proof (ascii_line_of_doc ls row line Hasc Hl) as Hline.
  pose proof (lookup_lt_Some _ _ _ Hl) as Hrow.
  rewrite str_len_ascii in Hcol by exact Hline.
  destruct (row_offset_some ls row Hrow) as [p Hp].
  pose proof (row_offset_bound ls row p line Hasc Hp Hl) as Hbound.
  destruct (rope_insert_then_remove r (p + col) c ltac:(lia)) as (r' & Hins & Hrem).
  unfold Buf.insert_char; simpl.
  replace (length ls <=? row) with false by (symmetry; apply Nat.leb_gt; lia).
  rewrite Hl.
  rewrite str_len_ascii by exact Hline.
  replace (length line <? col) with false by (symmetry; apply Nat.ltb_ge; lia).
  rewrite str_insert_ascii by assumption.
  unfold Buf.get_char_position; simpl. rewrite row_offset_insert, Hp. simpl.
  rewrite Hins.
  eexists _, _. split; [reflexivity|].
  unfold Buf.delete_char; simpl.
  rewrite length_insert.
  replace (length ls <=? row) with false by (symmetry; apply Nat.leb_gt; lia).
  rewrite list_lookup_insert_eq by exact Hrow.
  replace (col <? str_len (take col line ++ c :: drop col line)) with true
    by (symmetry; apply Nat.ltb_lt; apply str_len_inserted_ascii; assumption).
  rewrite str_remove_inserted_ascii by assumption.
  unfold Buf.get_char_position; simpl.
  rewrite !row_offset_insert, Hp. simpl. rewrite Hrem.
  split; [reflexivity|]. simpl. split; [|reflexivity].
  rewrite list_insert_insert_eq. apply list_insert_id. exact Hl.
Qed.

Lemma insert_then_delete_restores_witness :
  Buf.lines doc_two_lines_ed !! 1 = Some (lit "cd") /\
  2 <= str_len (lit "cd") /\
  forallb is_ascii (Buf.lines doc_two_lines_ed) = true /\
  length (join_nl (Buf.lines doc_two_lines_ed)) <= length (Buf.rope doc_two_lines_ed) /\
  exists d1 d2,
    Buf.insert_char doc_two_lines_ed 1 2 120%N = Some d1 /\
    Buf.delete_char d1 1 2 = Some (true, d2) /\
    Buf.lines d2 = Buf.lines doc_two_lines_ed /\
    Buf.rope d2 = Buf.rope doc_two_lines_ed.
Proof.
  split; [reflexivity|]. split; [vm_compute; lia|].
  split; [reflexivity|]. split; [vm_compute; lia|].
  apply (insert_then_delete_restores doc_two_lines_ed 1 2 120%N (lit "cd"));
    [reflexivity | vm_compute; lia | reflexivity | vm_compute; lia].
Defined.

End DocumentEdit.

(* ------------------------------------------------------------------ *)
(** * The shell monad: what [poll_output] leaves alone *)

Module ShellFrame.
Import Sh.

(** [poll_output] only appends to [lines], may clear [running], [child]
    and [output_receiver], and consumes the channel; it releases every
    guard it takes. *)
Definition pframe (m0 m1 : Mach) : Prop :=
  held m1 = held m0 /\
  input_line (sh m1) = input_line (sh m0) /\
  cursor_pos (sh m1) = cursor_pos (sh m0) /\
  child_stdin (sh m1) = child_stdin (sh m0) /\
  command_history (sh m1) = command_history (sh m0) /\
  history_position (sh m1) = history_position (sh m0) /\
  (exists ext, lines (sh m1) = lines (sh m0) ++ ext) /\
  (running (sh m0) = false -> running (sh m1) = false) /\
  stdin_write_ok (world m1) = stdin_write_ok (world m0) /\
  stdin_flush_ok (world m1) = stdin_flush_ok (world m0) /\
  stdin_log (world m1) = stdin_log (world m0).

Definition Frames {A} (p : M A) : Prop :=
  forall m a m', p m = Ret a m' -> pframe m m'.

Lemma pframe_refl (m : Mach) : pframe m m.
Proof.
  repeat split; try reflexivity; [|auto]. exists []. rewrite app_nil_r. reflexivity.
Qed.

Lemma pframe_trans (m0 m1 m2 : Mach) : pframe m0 m1 -> pframe m1 m2 -> pframe m0 m2.
Proof.
  intros (H1 & H2 & H3 & H4 & H5 & H6 & [e1 H7] & H8 & H9 & H10 & H11)
         (K1 & K2 & K3 & K4 & K5 & K6 & [e2 K7] & K8 & K9 & K10 & K11).
  repeat split; try congruence; [|auto].
  exists (e1 ++ e2). rewrite K7, H7, app_assoc. reflexivity.
Qed.

Lemma mbind_ret {A B} (p : M A) (k : A -> M B) (m m1 : Mach) (a : A) :
  p m = Ret a m1 -> mbind p k m = k a m1.
Proof. intros H. unfold mbind. rewrite H. reflexivity. Qed.

Lemma frames_ret {A} (a : A) : Frames (mret a).
Proof. intros m b m' H. injection H as _ <-. apply pframe_refl. Qed.

Lemma frames_bind {A B} (p : M A) (k : A -> M B) :
  Frames p -> (forall a, Frames (k a)) -> Frames (mbind p k).
Proof.
  intros Hp Hk m b m' H. unfold mbind in H.
  destruct (p m) as [a m1|] eqn:E; [|discriminate].
  eapply pframe_trans; [exact (Hp _ _ _ E) | exact (Hk _ _ _ _ H)].
Qed.

Lemma frames_gets {A} (f : Shell -> A) : Frames (gets f).
Proof. intros m b m' H. injection H as _ <-. apply pframe_refl. Qed.

Lemma frames_queue_len : Frames queue_len.
Proof. intros m b m' H. injection H as _ <-. apply pframe_refl. Qed.

Lemma frames_try_wait : Frames try_wait.
Proof. intros m b m' H. injection H as _ <-. apply pframe_refl. Qed.

Lemma frames_try_recv : Frames try_recv.
Proof.
  intros [s w h] b m' H. unfold try_recv in H; simpl in H.
  destruct (queue w); injection H as _ <-; [apply pframe_refl|].
  repeat split; try reflexivity; [|auto]. exists []. rewrite app_nil_r. reflexivity.
Qed.

Lemma frames_push_line (l : rstring) : Frames (modify (push_line l)).
Proof.
  intros [s w h] b m' H. injection H as _ <-.
  repeat split; try reflexivity; auto. exists [l]. reflexivity.
Qed.

Lemma frames_set_running (r : bool) : r = false -> Frames (modify (set_running r)).
Proof.
  intros -> [s w h] b m' H. injection H as _ <-.
  repeat split; try reflexivity; auto. exists []. rewrite app_nil_r. reflexivity.
Qed.

Lemma frames_set_receiver (o : option nat) : Frames (modify (set_receiver o)).
Proof.
  intros [s w h] b m' H. injection H as _ <-.
  repeat split; try reflexivity; [|auto]. exists []. rewrite app_nil_r. reflexivity.
Qed.

Lemma frames_set_child (o : option nat) : Frames (modify (set_child o)).
Proof.
  intros [s w h] b m' H. injection H as _ <-.
  repeat split; try reflexivity; [|auto]. exists []. rewrite app_nil_r. reflexivity.
Qed.

Lemma Lock_eqb_refl (l : Lock) : Lock_eqb l l = true.
Proof. destruct l; reflexivity. Qed.

Lemma Lock_eqb_sym (a b : Lock) : Lock_eqb a b = Lock_eqb b a.
Proof. destruct a, b; reflexivity. Qed.

Lemma filter_ne_notin (l : Lock) (hs : list Lock) :
  existsb (Lock_eqb l) hs = false ->
  List.filter (fun l' => negb (Lock_eqb l' l)) hs = hs.
Proof.
  induction hs as [|l0 hs IH]; intros H; [reflexivity|].
  simpl in H. apply orb_false_iff in H as [H0 H]. simpl.
  rewrite Lock_eqb_sym, H0. simpl. f_equal. apply IH. exact H.
Qed.

Lemma frames_with_lock {A} (l : Lock) (p : M A) : Frames p -> Frames (with_lock l p).
Proof.
  intros Hp [s w h] b m' H. unfold with_lock, mbind, lock in H. simpl in H.
  destruct (existsb (Lock_eqb l) h) eqn:Hin; [discriminate|].
  destruct (p (mkMach s w (l :: h))) as [a m1|] eqn:E; [|discriminate].
  unfold unlock in H. injection H as _ <-.
  destruct (Hp _ _ _ E) as (H1 & H2 & H3 & H4 & H5 & H6 & H7 & H8 & H9 & H10 & H11).
  repeat split; auto. simpl. rewrite H1. simpl.
  rewrite Lock_eqb_refl. simpl. apply filter_ne_notin. exact Hin.
Qed.

Lemma frames_drain (n : nat) : Frames (drain n).
Proof.
  induction n as [|n IH]; simpl; [apply frames_ret|].
  apply frames_bind; [apply frames_try_recv|]. intros r.
  destruct r as [[l|]| |].
  - apply frames_bind; [apply frames_push_line|]. intros _. exact IH.
  - exact IH.
  - apply frames_ret.
  - apply frames_bind; [apply frames_set_running; reflexivity|]. intros _.
    apply frames_with_lock. apply frames_set_receiver.
Qed.

Lemma frames_poll_output : Frames poll_output.
Proof.
  unfold poll_output.
  apply frames_bind.
  { apply frames_with_lock. apply frames_bind; [apply frames_gets|]. intros [rx|].
    - apply frames_bind; [apply frames_queue_len|]. intros n. apply frames_drain.
    - apply frames_ret. }
  intros _. apply frames_bind; [apply frames_gets|]. intros [|]; [|apply frames_ret].
  apply frames_with_lock. apply frames_bind; [apply frames_gets|]. intros [c|].
  - apply frames_bind; [apply frames_try_wait|]. intros [| |].
    + apply frames_bind; [apply frames_set_running; reflexivity|]. intros _.
      apply frames_with_lock. apply frames_set_child.
    + apply frames_ret.
    + apply frames_bind; [apply frames_set_running; reflexivity|]. intros _.
      apply frames_with_lock. apply frames_set_child.
  - apply frames_bind; [apply frames_with_lock; apply frames_gets|]. intros rx.
    case_bool_decide; [apply frames_set_running; reflexivity|apply frames_ret].
Qed.

End ShellFrame.

(* ------------------------------------------------------------------ *)
(** * The shell session: [execute_command] and [poll_output] *)

Module ShellSession.
Import Sh ShellFrame.

(** A session whose child shell has gone: both reader threads have seen
    end of stream and dropped their senders, and [try_wait] reports the
    exit.  The input line is ["exit"]. *)
Definition shell_exit : Shell :=
  mkShell [lit "RVim Interactive Shell"; lit "Spawning system shell..."] exit_cmd 4
    true true [] 0 (Some 4242) None (Some 1) 2.

Definition world_child_gone : World := mkWorld [] false Exited true true [].

Lemma execute_exit_after_poll (s : Shell) (w : World) (sleep : World -> World) (m1 : Mach) :
  run poll_output s w = Ret tt m1 ->
  rstring_eqb (trim (input_line s)) exit_cmd = true ->
  exists m', run (execute_command sleep) s w = Ret (Ok tt) m' /\
    running (sh m') = false /\ input_line (sh m') = [] /\ cursor_pos (sh m') = 0.
Proof.
  intros Hpoll Hexit. unfold run in *. unfold execute_command.
  rewrite (mbind_ret _ _ _ _ _ Hpoll).
  destruct (frames_poll_output _ _ _ Hpoll) as (Hh & Hin & _).
  destruct m1 as [s1 w1 h1]; simpl in *. subst h1.
  cbn [mbind gets sh]. rewrite Hin, Hexit.
  unfold with_lock, lock, unlock, gets, write_line, flush, modify, mret, mbind; cbn.
  destruct (child_stdin s1); cbn; [destruct (stdin_write_ok w1); cbn|];
    eexists; (split; [reflexivity|]); cbn; auto.
Qed.

(** C1 (code bug): when the initial [poll_output] returns, the ["exit"]
    path sets [running] to false, clears the input line and returns
    [Ok(())] whatever the write to the child's stdin does.  But on a
    session whose output channel is disconnected, [poll_output] locks
    [output_receiver] again while its own guard [rx_guard] is alive, so
    [execute_command] never returns. *)
Theorem execute_exit_hangs_when_channel_disconnected :
  (forall (s : Shell) (w : World) (sleep : World -> World) (m1 : Mach),
     run poll_output s w = Ret tt m1 ->
     rstring_eqb (trim (input_line s)) exit_cmd = true ->
     exists m', run (execute_command sleep) s w = Ret (Ok tt) m' /\
       running (sh m') = false /\ input_line (sh m') = [] /\ cursor_pos (sh m') = 0) /\
  (forall sleep : World -> World,
     run (execute_command sleep) shell_exit world_child_gone = Hang).
Proof.
  split.
  - exact execute_exit_after_poll.
  - intros sleep. reflexivity.
Qed.

(** C3 (code bug): on a stopped session whose channel is released,
    [poll_output] returns and changes nothing; but when the channel
    reports [Disconnected], [poll_output] locks [output_receiver] while
    [rx_guard] holds it, and never returns: it neither sets [running]
    to false nor releases the channel. *)
Theorem poll_output_hangs_on_disconnect :
  (forall (s : Shell) (w : World),
     running s = false -> output_receiver s = None ->
     run poll_output s w = Ret tt (mkMach s w [])) /\
  run poll_output shell_exit world_child_gone = Hang.
Proof.
  split; [|reflexivity].
  intros s w Hr Hrx. unfold run, poll_output, with_lock, lock, unlock, gets, mbind, mret.
  cbn. rewrite Hrx. cbn. rewrite Hr. reflexivity.
Qed.

(** The same re-lock on the child: a running session whose child has
    exited, with the channel still connected, hangs in [poll_output]. *)
Lemma poll_output_hangs_on_child_exit :
  run poll_output shell_exit (mkWorld [] true Exited true true []) = Hang.
Proof. reflexivity. Qed.

Lemma bind_inv {A B} (p : M A) (k : A -> M B) (m m' : Mach) (b : B) :
  mbind p k m = Ret b m' -> exists a m1, p m = Ret a m1 /\ k a m1 = Ret b m'.
Proof.
  unfold mbind. destruct (p m) as [a m1|]; [|discriminate]. intros H. eauto.
Qed.

(** A live session without a stdin handle, whose input line is ["ls"]. *)
Definition shell_ls : Shell :=
  mkShell [lit "RVim Interactive Shell"] (lit "ls") 2 true true [] 0 (Some 4242) None
    (Some 1) 2.






End ShellSession.

(* ------------------------------------------------------------------ *)
(** * Shell history *)

Module ShellHistory.
Import Sh.

(** C8 (code bug): with an empty command history, [history_down] takes
    the [else if] branch and evaluates [self.command_history.len() - 1],
    i.e. [0 - 1] on [usize], which panics. *)
Theorem history_down_empty_history_panics (s : Shell) :
  command_history s = [] -> history_down s = None.
Proof. intros H. unfold history_down. rewrite H. reflexivity. Qed.

Lemma history_down_empty_history_panics_witness :
  command_history ShellSession.shell_ls = [] /\ history_down ShellSession.shell_ls = None.
Proof.
  split; [reflexivity|]. apply history_down_empty_history_panics. reflexivity.
Defined.

(** On a non-empty history, [history_down] from the last entry moves the
    cursor one past the end and clears the input line. *)
Lemma history_down_from_last (s : Shell) :
  command_history s <> [] ->
  history_position s = length (command_history s) - 1 ->
  exists s', history_down s = Some s' /\
    history_position s' = length (command_history s) /\
    input_line s' = [] /\ cursor_pos s' = 0 /\
    command_history s' = command_history s.
Proof.
  intros Hne Hpos. unfold history_down.
  destruct (command_history s) as [|e h] eqn:Eh; [congruence|].
  rewrite bool_decide_eq_false_2 by discriminate. simpl in *.
  unfold usize_sub. simpl. rewrite Nat.sub_0_r in *.
  rewrite Hpos, Nat.ltb_irrefl, Nat.eqb_refl.
  eexists. repeat split; simpl; try rewrite Eh; reflexivity.
Qed.

(** On an empty history, [history_up] changes nothing. *)
Lemma history_up_empty_history (s : Shell) :
  command_history s = [] -> history_up s = Some s.
Proof. intros H. unfold history_up. rewrite H. reflexivity. Qed.

End ShellHistory.

(* ------------------------------------------------------------------ *)
(** * Window split *)

Module WindowSplit.
Import Win.

Definition win_a : Window := mkWindow 0 0 80 24 0 0 0 0 (Some (lit "a.txt")) true.

(** C7 (code bug): on a window whose rectangle lies within the [usize]
    range, [split(kind)] returns two fresh windows (cursor and offsets
    0) that exactly tile the parent's rectangle: top/bottom for a
    horizontal split (the top one gets the lower half of the height),
    left/right for a vertical split (the left one gets the lower half of
    the width).  Against the comment "Copy current window's file path to
    both windows", only the second child gets the parent's file path:
    the first one has none.  Both children are flagged active. *)
(** Name [height / 2], [width / 2], their remainders and the [usize]
    bound, so that [lia] reasons on them as plain unknowns. *)
Ltac halves w :=
  set (L := (2 ^ 64)%N) in *;
  set (qh := (height w / 2)%N) in *; set (rh := (height w mod 2)%N) in *;
  set (qw := (width w / 2)%N) in *; set (rw := (width w mod 2)%N) in *;
  clearbody L qh rh qw rw.

Theorem split_copies_path_to_second_only (w : Window) (k : SplitType) :
  (x w + width w < 2 ^ 64)%N -> (y w + height w < 2 ^ 64)%N ->
  exists a b, split w k = Some (Ok (a, b)) /\
    match k with
    | Horizontal =>
        x a = x w /\ x b = x w /\ width a = width w /\ width b = width w /\
        y a = y w /\ height a = (height w / 2)%N /\ y b = (y w + height a)%N /\
        (height a + height b)%N = height w
    | Vertical =>
        y a = y w /\ y b = y w /\ height a = height w /\ height b = height w /\
        x a = x w /\ width a = (width w / 2)%N /\ x b = (x w + width a)%N /\
        (width a + width b)%N = width w
    end /\
    file_path a = None /\ file_path b = file_path w /\
    is_active a = true /\ is_active b = true /\
    cursor_x a = 0%N /\ cursor_y a = 0%N /\ offset_x a = 0%N /\ offset_y a = 0%N /\
    cursor_x b = 0%N /\ cursor_y b = 0%N /\ offset_x b = 0%N /\ offset_y b = 0%N.
Proof.
  intros Hx Hy.
  pose proof (N.div_mod (height w) 2 ltac:(lia)) as Hh.
  pose proof (N.div_mod (width w) 2 ltac:(lia)) as Hw.
  pose proof (N.mod_lt (height w) 2 ltac:(lia)).
  pose proof (N.mod_lt (width w) 2 ltac:(lia)).
  destruct k; unfold split, usize_add; cbv zeta; halves w;
    (rewrite (proj2 (N.ltb_lt _ _)) by lia);
    eexists _, _; (split; [reflexivity|]); cbn -[N.div N.sub N.add N.pow];
    split_and!; try reflexivity; lia.
Qed.

Lemma split_copies_path_to_second_only_witness :
  (x win_a + width win_a < 2 ^ 64)%N /\ (y win_a + height win_a < 2 ^ 64)%N /\
  exists a b, split win_a Horizontal = Some (Ok (a, b)) /\
    (x a = x win_a /\ x b = x win_a /\ width a = width win_a /\ width b = width win_a /\
     y a = y win_a /\ height a = (height win_a / 2)%N /\ y b = (y win_a + height a)%N /\
     (height a + height b)%N = height win_a) /\
    file_path a = None /\ file_path b = file_path win_a /\
    is_active a = true /\ is_active b = true /\
    cursor_x a = 0%N /\ cursor_y a = 0%N /\ offset_x a = 0%N /\ offset_y a = 0%N /\
    cursor_x b = 0%N /\ cursor_y b = 0%N /\ offset_x b = 0%N /\ offset_y b = 0%N.
Proof.
  split; [vm_compute; reflexivity|]. split; [vm_compute; reflexivity|].
  apply (split_copies_path_to_second_only win_a Horizontal); vm_compute; reflexivity.
Defined.

End WindowSplit.

(* ------------------------------------------------------------------ *)
(** * Tab switching *)

Module TabSwitch.
Import Tabs.

(** C9: with no tab, [switch_to_next_tab] and [switch_to_prev_tab]
    return the "No tabs available" error and leave the manager as it
    is; with tabs, they succeed and move the current index circularly:
    forward to [(current + 1) mod n], backward to
    [(current + n - 1) mod n] (for a valid current index). *)
Theorem switch_tab_circular {B : Type} (tm : @TabManager B) :
  (tabs tm = [] ->
     switch_to_next_tab tm = (Err (TabError "No tabs available"), tm) /\
     switch_to_prev_tab tm = (Err (TabError "No tabs available"), tm)) /\
  (tabs tm <> [] ->
     switch_to_next_tab tm =
       (Ok tt, set_current ((current_tab tm + 1) mod length (tabs tm)) tm) /\
     (current_tab tm < length (tabs tm) ->
        switch_to_prev_tab tm =
          (Ok tt, set_current ((current_tab tm + length (tabs tm) - 1) mod length (tabs tm)) tm) /\
        (current_tab tm + length (tabs tm) - 1) mod length (tabs tm) < length (tabs tm))).
Proof.
  split.
  - intros H. unfold switch_to_next_tab, switch_to_prev_tab.
    rewrite bool_decide_eq_true_2 by exact H. split; reflexivity.
  - intros H. unfold switch_to_next_tab, switch_to_prev_tab.
    rewrite bool_decide_eq_false_2 by exact H.
    assert (Hn : length (tabs tm) <> 0) by (intros E; apply H; apply length_zero_iff_nil; exact E).
    split; [reflexivity|]. intros Hc. split; [|apply Nat.mod_upper_bound; exact Hn].
    do 2 f_equal. destruct (current_tab tm =? 0) eqn:E.
    + apply Nat.eqb_eq in E. rewrite E. simpl.
      rewrite Nat.mod_small by lia. reflexivity.
    + apply Nat.eqb_neq in E.
      replace (current_tab tm + length (tabs tm) - 1)
        with ((current_tab tm - 1) + 1 * length (tabs tm)) by lia.
      rewrite Nat.Div0.mod_add, Nat.mod_small by lia. reflexivity.
Qed.

End TabSwitch.

(* ------------------------------------------------------------------ *)
(** * The tab manager: its invariant and operations *)

Module TabProps.
Import Tabs.

Section WithBuffer.

Context {B : Type}.

(** What [TabManager::new] establishes and every method keeps: the tabs'
    ids are their positions [0 .. n-1], [next_id] is [n], [tab_map] maps
    exactly the tabs' names to their ids, names are distinct, and the
    current index is [0] or a tab's index. *)
Definition tabs_wf (tm : @TabManager B) : Prop :=
  map id (tabs tm) = seq 0 (length (tabs tm)) /\
  next_id tm = length (tabs tm) /\
  (forall nm i, tab_map tm !! nm = Some i <->
     exists t, tabs tm !! i = Some t /\ name t = nm) /\
  NoDup (map name (tabs tm)) /\
  (current_tab tm = 0 \/ current_tab tm < length (tabs tm)).

Lemma tabs_wf_name_taken (tm : @TabManager B) (nm : rstring) :
  tabs_wf tm -> is_Some (tab_map tm !! nm) <-> nm ∈ map name (tabs tm).
Proof.
  intros (_ & _ & Hmap & _ & _). split.
  - intros [i Hi]. apply Hmap in Hi as (t & Ht & <-).
    apply list_elem_of_fmap. exists t. split; [reflexivity|].
    eapply list_elem_of_lookup_2. exact Ht.
  - intros Hin. apply list_elem_of_fmap in Hin as (t & -> & Ht).
    apply list_elem_of_lookup_1 in Ht as [i Hi].
    exists i. apply Hmap. eauto.
Qed.

Lemma lookup_snoc_inv {A} (l : list A) (x y : A) (i : nat) :
  (l ++ [x]) !! i = Some y -> (l !! i = Some y /\ i < length l) \/ (i = length l /\ y = x).
Proof.
  intros H. destruct (decide (i < length l)) as [Hi|Hi].
  - left. rewrite lookup_app_l in H by exact Hi. auto.
  - right. rewrite lookup_app_r in H by lia.
    destruct (i - length l) as [|k] eqn:E; simpl in H.
    + injection H as <-. split; [lia|reflexivity].
    + rewrite lookup_nil in H. discriminate.
Qed.

Lemma tabs_wf_create (tm : @TabManager B) (nm : rstring) (b : B) :
  tabs_wf tm -> tabs_wf (snd (create_tab tm nm b)).
Proof.
  intros Hwf. unfold create_tab.
  case_bool_decide as Hnm; [exact Hwf|]. simpl.
  destruct Hwf as (Hid & Hnext & Hmap & Hnd & Hcur).
  rewrite Hnext. unfold tabs_wf; simpl. repeat split.
  - rewrite List.map_app, Hid, length_app. simpl. rewrite seq_app. reflexivity.
  - rewrite length_app. simpl. lia.
  - intros Hl. destruct (decide (nm0 = nm)) as [->|Hne].
    + rewrite lookup_insert_eq in Hl. injection Hl as <-.
      exists (mkTab (length (tabs tm)) nm b). split; [|reflexivity].
      rewrite lookup_app_r by lia. rewrite Nat.sub_diag. reflexivity.
    + rewrite lookup_insert_ne in Hl by congruence.
      apply Hmap in Hl as (t & Ht & Hn). exists t. split; [|exact Hn].
      rewrite lookup_app_l by (eapply lookup_lt_Some; exact Ht). exact Ht.
  - intros (t & Ht & Hn). apply lookup_snoc_inv in Ht as [[Ht Hi]|[-> ->]].
    + destruct (decide (nm0 = nm)) as [->|Hne].
      * exfalso. apply Hnm. exists i. apply Hmap. eauto.
      * rewrite lookup_insert_ne by congruence. apply Hmap. eauto.
    + simpl in Hn. subst nm0. rewrite lookup_insert_eq. reflexivity.
  - rewrite List.map_app. simpl. apply NoDup_app. split; [exact Hnd|]. split.
    + intros x Hx Hx'. apply list_elem_of_singleton in Hx'. subst x.
      apply Hnm. apply (tabs_wf_name_taken tm nm); [exact (conj Hid (conj Hnext (conj Hmap (conj Hnd Hcur)))) | exact Hx].
    + apply NoDup_singleton.
  - simpl. rewrite length_app. simpl. destruct Hcur; [left|right]; lia.
Qed.

Lemma tabs_wf_set_current (tm : @TabManager B) (c : nat) :
  tabs_wf tm -> c < length (tabs tm) -> tabs_wf (set_current c tm).
Proof.
  intros (H1 & H2 & H3 & H4 & _) Hc. unfold tabs_wf; simpl. split_and!; auto.
Qed.

Lemma tabs_wf_new : tabs_wf (@TabManager_new B).
Proof.
  unfold tabs_wf; simpl. split_and!; auto.
  - intros nm i. rewrite lookup_empty. split; [discriminate|].
    intros (t & Ht & _). rewrite lookup_nil in Ht. discriminate.
  - constructor.
Qed.

Lemma set_current_same (tm : @TabManager B) : set_current (current_tab tm) tm = tm.
Proof. destruct tm. reflexivity. Qed.

Lemma set_current_twice (tm : @TabManager B) (a c : nat) :
  set_current a (set_current c tm) = set_current a tm.
Proof. reflexivity. Qed.

End WithBuffer.

(** A manager with the tabs "a" and "b", obtained through the API. *)
Definition tm_ab : @TabManager nat :=
  snd (create_tab (snd (create_tab TabManager_new (lit "a") 1)) (lit "b") 2).

Lemma tm_ab_wf : tabs_wf tm_ab.
Proof. unfold tm_ab. apply tabs_wf_create, tabs_wf_create, tabs_wf_new. Qed.

(** The invariant [tabs_wf] holds for [TabManager::new] and is kept by
    [create_tab], [switch_to_next_tab], [switch_to_prev_tab] and
    [switch_to_tab], whatever they return. *)
Theorem tabs_wf_invariant {B : Type} :
  tabs_wf (@TabManager_new B) /\
  forall tm : @TabManager B, tabs_wf tm ->
    (forall nm b, tabs_wf (snd (create_tab tm nm b))) /\
    tabs_wf (snd (switch_to_next_tab tm)) /\
    tabs_wf (snd (switch_to_prev_tab tm)) /\
    (forall idx, tabs_wf (snd (switch_to_tab tm idx))).
Proof.
  split; [apply tabs_wf_new|].
  intros tm Hwf. split; [intros; apply tabs_wf_create; exact Hwf|].
    pose proof Hwf as (_ & _ & _ & _ & Hcur).
    split; [|split].
    + unfold switch_to_next_tab. case_bool_decide as He; [exact Hwf|].
      simpl. apply tabs_wf_set_current; [exact Hwf|].
      apply Nat.mod_upper_bound. intros E. apply He, length_zero_iff_nil, E.
    + unfold switch_to_prev_tab. case_bool_decide as He; [exact Hwf|].
      simpl. apply tabs_wf_set_current; [exact Hwf|].
      assert (length (tabs tm) <> 0) by (intros E; apply He, length_zero_iff_nil, E).
      destruct (current_tab tm =? 0) eqn:E; [lia|].
      apply Nat.eqb_neq in E. lia.
    + intros idx. unfold switch_to_tab. destruct (idx <? length (tabs tm)) eqn:E; [|exact Hwf].
      apply tabs_wf_set_current; [exact Hwf|]. apply Nat.ltb_lt, E.
Qed.

(** On a well-formed manager, [create_tab] fails with [TabExists(name)]
    and changes nothing exactly when a tab already has that name;
    otherwise it appends the tab with id [n] (the number of tabs before)
    and registers the name. *)
Theorem create_tab_by_name {B : Type} (tm : @TabManager B) (nm : rstring) (b : B) :
  tabs_wf tm ->
  create_tab tm nm b =
    if bool_decide (nm ∈ map name (tabs tm)) then (Err (TabExists nm), tm)
    else (Ok (length (tabs tm)),
          mkTabManager (tabs tm ++ [mkTab (length (tabs tm)) nm b]) (current_tab tm)
            (<[nm := length (tabs tm)]> (tab_map tm)) (S (length (tabs tm)))).
Proof.
  intros Hwf. unfold create_tab.
  rewrite (bool_decide_ext _ _ (tabs_wf_name_taken tm nm Hwf)).
  destruct Hwf as (_ & Hnext & _). rewrite Hnext. reflexivity.
Qed.

Lemma create_tab_by_name_witness :
  tabs_wf tm_ab /\
  create_tab tm_ab (lit "a") 3 = (Err (TabExists (lit "a")), tm_ab).
Proof.
  split; [exact tm_ab_wf|].
  rewrite (create_tab_by_name tm_ab (lit "a") 3 tm_ab_wf). vm_compute. reflexivity.
Defined.

(** On a well-formed manager, the id [create_tab] returns for a new name
    is the new tab's index: [switch_to_tab] on it succeeds and makes the
    new buffer the current one.  Creating a tab does not switch to it:
    the current index, and the current buffer if there was one, stay;
    [tab_list] gains [(id, name)] at its end. *)
Theorem create_then_switch_to_new_tab {B : Type} (tm : @TabManager B) (nm : rstring) (b : B) :
  tabs_wf tm ->
  nm ∉ map name (tabs tm) ->
  exists tm1 tm2,
    create_tab tm nm b = (Ok (length (tabs tm)), tm1) /\
    tab_list tm1 = tab_list tm ++ [(length (tabs tm), nm)] /\
    current_tab tm1 = current_tab tm /\
    (current_tab tm < length (tabs tm) -> current_buffer tm1 = current_buffer tm) /\
    switch_to_tab tm1 (length (tabs tm)) = (Ok tt, tm2) /\
    current_buffer tm2 = Ok b.
Proof.
  intros Hwf Hnm. rewrite (create_tab_by_name tm nm b Hwf).
  rewrite bool_decide_eq_false_2 by exact Hnm.
  eexists _, _. split; [reflexivity|]. split.
  { unfold tab_list; simpl. rewrite List.map_app. reflexivity. }
  split; [reflexivity|]. split.
  { intros Hc. unfold current_buffer; simpl. rewrite lookup_app_l by exact Hc. reflexivity. }
  unfold switch_to_tab; simpl. rewrite length_app; simpl.
  replace (length (tabs tm) <? length (tabs tm) + 1) with true
    by (symmetry; apply Nat.ltb_lt; lia).
  split; [reflexivity|].
  unfold current_buffer; simpl. rewrite lookup_app_r by lia.
  rewrite Nat.sub_diag. reflexivity.
Qed.

Lemma create_then_switch_to_new_tab_witness :
  tabs_wf tm_ab /\ (lit "c" ∉ map name (tabs tm_ab)) /\
  exists tm1 tm2,
    create_tab tm_ab (lit "c") 3 = (Ok (length (tabs tm_ab)), tm1) /\
    tab_list tm1 = tab_list tm_ab ++ [(length (tabs tm_ab), lit "c")] /\
    current_tab tm1 = current_tab tm_ab /\
    (current_tab tm_ab < length (tabs tm_ab) -> current_buffer tm1 = current_buffer tm_ab) /\
    switch_to_tab tm1 (length (tabs tm_ab)) = (Ok tt, tm2) /\
    current_buffer tm2 = Ok 3.
Proof.
  split; [exact tm_ab_wf|]. split; [apply (bool_decide_unpack _); vm_compute; reflexivity|].
  apply (create_then_switch_to_new_tab tm_ab (lit "c") 3 tm_ab_wf).
  apply (bool_decide_unpack _). vm_compute. reflexivity.
Defined.

(** On a well-formed manager, [current_buffer] fails with "No active
    tab" exactly when there is no tab; otherwise it returns the buffer
    of the tab [get_current_tab] returns. *)
Theorem current_buffer_fails_iff_no_tabs {B : Type} (tm : @TabManager B) :
  tabs_wf tm ->
  (current_buffer tm = Err (TabError "No active tab") <-> tabs tm = []) /\
  (tabs tm <> [] -> exists t, get_current_tab tm = Some t /\ current_buffer tm = Ok (buffer t)).
Proof.
  intros (_ & _ & _ & _ & Hcur). unfold current_buffer, get_current_tab.
  split.
  - split.
    + destruct (tabs tm !! current_tab tm) eqn:E; [discriminate|].
      intros _. apply lookup_ge_None in E.
      destruct Hcur as [Hc|Hc]; [|lia].
      destruct (tabs tm); [reflexivity|simpl in E; lia].
    + intros ->. destruct (current_tab tm); reflexivity.
  - intros Hne. assert (length (tabs tm) <> 0) by (intros E; apply Hne, length_zero_iff_nil, E).
    destruct (lookup_lt_is_Some_2 (tabs tm) (current_tab tm)) as [t Ht]; [lia|].
    rewrite Ht. eauto.
Qed.

Lemma current_buffer_fails_iff_no_tabs_witness :
  tabs_wf tm_ab /\
  (current_buffer tm_ab = Err (TabError "No active tab") <-> tabs tm_ab = []) /\
  (tabs tm_ab <> [] -> exists t, get_current_tab tm_ab = Some t /\ current_buffer tm_ab = Ok (buffer t)).
Proof.
  split; [exact tm_ab_wf|]. apply current_buffer_fails_iff_no_tabs. exact tm_ab_wf.
Defined.

(** [switch_to_tab(idx)] succeeds and makes tab [idx]'s buffer current
    when [idx] is a tab's index; otherwise it fails with
    [TabNotFound(idx)] and changes nothing. *)
Theorem switch_to_tab_bounds {B : Type} (tm : @TabManager B) (idx : nat) :
  (idx < length (tabs tm) -> exists t tm',
     tabs tm !! idx = Some t /\ switch_to_tab tm idx = (Ok tt, tm') /\
     current_tab tm' = idx /\ current_buffer tm' = Ok (buffer t)) /\
  (length (tabs tm) <= idx -> switch_to_tab tm idx = (Err (TabNotFound idx), tm)).
Proof.
  unfold switch_to_tab. split; intros H.
  - destruct (lookup_lt_is_Some_2 (tabs tm) idx H) as [t Ht].
    rewrite (proj2 (Nat.ltb_lt _ _) H). exists t, (set_current idx tm).
    split_and!; try reflexivity; [exact Ht|].
    unfold current_buffer; simpl. rewrite Ht. reflexivity.
  - rewrite (proj2 (Nat.ltb_ge _ _) H). reflexivity.
Qed.

(** With a valid current index, [switch_to_prev_tab] undoes
    [switch_to_next_tab] and the other way round. *)
Theorem switch_next_prev_inverse {B : Type} (tm : @TabManager B) :
  current_tab tm < length (tabs tm) ->
  snd (switch_to_prev_tab (snd (switch_to_next_tab tm))) = tm /\
  snd (switch_to_next_tab (snd (switch_to_prev_tab tm))) = tm.
Proof.
  intros Hc. assert (Hne : tabs tm <> []) by (intros E; rewrite E in Hc; simpl in Hc; lia).
  set (n := length (tabs tm)) in *.
  unfold switch_to_next_tab, switch_to_prev_tab.
  rewrite (bool_decide_eq_false_2 (tabs tm = []) Hne). simpl.
  rewrite (bool_decide_eq_false_2 (tabs tm = []) Hne). simpl. fold n.
  rewrite !set_current_twice.
  split.
  - destruct (decide (current_tab tm + 1 = n)) as [E|E].
    + rewrite E, Nat.Div0.mod_same. simpl.
      replace (n - 1) with (current_tab tm) by lia. apply set_current_same.
    + rewrite Nat.mod_small by lia.
      replace (current_tab tm + 1 =? 0) with false by (symmetry; apply Nat.eqb_neq; lia).
      replace (current_tab tm + 1 - 1) with (current_tab tm) by lia. apply set_current_same.
  - destruct (current_tab tm =? 0) eqn:E.
    + apply Nat.eqb_eq in E. simpl.
      replace (n - 1 + 1) with n by lia. rewrite Nat.Div0.mod_same.
      rewrite <- E. apply set_current_same.
    + apply Nat.eqb_neq in E. simpl.
      replace (current_tab tm - 1 + 1) with (current_tab tm) by lia.
      rewrite Nat.mod_small by lia. apply set_current_same.
Qed.

Lemma switch_next_prev_inverse_witness :
  current_tab tm_ab < length (tabs tm_ab) /\
  snd (switch_to_prev_tab (snd (switch_to_next_tab tm_ab))) = tm_ab /\
  snd (switch_to_next_tab (snd (switch_to_prev_tab tm_ab))) = tm_ab.
Proof.
  split; [vm_compute; lia|]. apply switch_next_prev_inverse. vm_compute. lia.
Defined.

End TabProps.

(* ------------------------------------------------------------------ *)
(** * Documents of src/cli/buffer.rs: the rope follows the lines *)

Lemma str_remove_ascii (l : rstring) (col : nat) :
  is_ascii l = true -> col < length l ->
  exists ch, str_remove l col = Some (ch, take col l ++ drop (S col) l).
Proof.
  revert col. induction l as [|a l IH]; intros col Hl Hcol; [simpl in Hcol; lia|].
  destruct col as [|k]; [eexists; reflexivity|].
  simpl in Hl. apply andb_prop in Hl as [Ha Hl].
  cbn [str_remove]. rewrite utf8_len_ascii by exact Ha.
  replace (S k <? 1) with false by (symmetry; apply Nat.ltb_ge; lia).
  replace (S k - 1) with k by lia.
  destruct (IH k Hl ltac:(simpl in Hcol; lia)) as [ch Hch].
  rewrite Hch. exists ch. reflexivity.
Qed.

Lemma is_ascii_app (l k : rstring) : is_ascii (l ++ k) = is_ascii l && is_ascii k.
Proof. unfold is_ascii. apply forallb_app. Qed.

Lemma is_ascii_take (l : rstring) (n : nat) : is_ascii l = true -> is_ascii (take n l) = true.
Proof.
  intros H. rewrite <- (take_drop n l), is_ascii_app in H.
  apply andb_prop in H as [H _]. exact H.
Qed.

Lemma is_ascii_drop (l : rstring) (n : nat) : is_ascii l = true -> is_ascii (drop n l) = true.
Proof.
  intros H. rewrite <- (take_drop n l), is_ascii_app in H.
  apply andb_prop in H as [_ H]. exact H.
Qed.

Lemma forallb_ascii_insert (ls : list rstring) (row : nat) (l : rstring) :
  forallb is_ascii ls = true -> is_ascii l = true -> forallb is_ascii (<[row := l]> ls) = true.
Proof.
  revert row. induction ls as [|l0 ls IH]; intros row H Hl; [reflexivity|].
  simpl in H. apply andb_prop in H as [H0 H].
  destruct row; simpl; rewrite ?Hl, ?H0; simpl; auto.
Qed.

(** With ASCII lines, the text [join("\n")] gives is the text before
    line [row] (of length its row offset), the line, and the text after;
    replacing the line replaces only the middle. *)
Lemma join_nl_focus (ls : list rstring) (row p : nat) (line : rstring) :
  forallb is_ascii ls = true ->
  ls !! row = Some line -> Buf.row_offset ls row = Some p ->
  exists A B, length A = p /\ join_nl ls = A ++ line ++ B /\
    forall l', join_nl (<[row := l']> ls) = A ++ l' ++ B.
Proof.
  revert ls p. induction row as [|r IH]; intros ls p Hasc Hl Hp.
  - destruct ls as [|l0 rest]; [discriminate|].
    simpl in Hl, Hp. injection Hl as ->. injection Hp as <-.
    exists [], (match rest with [] => [] | _ => nl :: join_nl rest end).
    split; [reflexivity|]. split.
    + destruct rest; simpl; [rewrite app_nil_r|]; reflexivity.
    + intros l'. destruct rest; simpl; [rewrite app_nil_r|]; reflexivity.
  - destruct ls as [|l0 rest]; [discriminate|].
    simpl in Hasc. apply andb_prop in Hasc as [H0 Hasc].
    simpl in Hl, Hp.
    destruct (Buf.row_offset rest r) as [p'|] eqn:E; [|discriminate].
    injection Hp as <-.
    destruct (IH rest p' Hasc Hl E) as (A & B & HA & Hj & Hins).
    destruct rest as [|l2 rest]; [discriminate|].
    exists (l0 ++ nl :: A), B. split.
    + rewrite length_app. simpl. rewrite str_len_ascii by exact H0. lia.
    + split.
      * change (join_nl (l0 :: l2 :: rest)) with (l0 ++ nl :: join_nl (l2 :: rest)).
        rewrite Hj, <- app_assoc. reflexivity.
      * intros l'. specialize (Hins l').
        change (<[S r := l']> (l0 :: l2 :: rest)) with (l0 :: <[r := l']> (l2 :: rest)).
        destruct r; simpl in Hins |- *; rewrite Hins, <- app_assoc; reflexivity.
Qed.

Module DocumentSync.

(** The rope holds exactly the lines joined by newlines. *)
Definition rope_synced (d : Buf.Document) : Prop := Buf.rope d = join_nl (Buf.lines d).

(** [Document::new] starts in sync; on a Document in sync whose lines
    are ASCII, [insert_char(row, col, c)] at a line [row] and a column
    [col] at most the line's length does not panic, inserts [c] at byte
    [col] of the line, sets [modified], and leaves the rope in sync (and
    the lines ASCII when [c] is). *)
Theorem insert_char_keeps_rope_in_sync (d : Buf.Document) (row col : nat) (c : rchar)
    (line : rstring) :
  rope_synced Buf.Document_new /\
  (rope_synced d -> forallb is_ascii (Buf.lines d) = true ->
   Buf.lines d !! row = Some line -> col <= str_len line ->
   exists d', Buf.insert_char d row col c = Some d' /\
     Buf.lines d' = <[row := take col line ++ c :: drop col line]> (Buf.lines d) /\
     rope_synced d' /\ Buf.modified d' = true /\ Buf.filename d' = Buf.filename d /\
     ((c <? 128)%N = true -> forallb is_ascii (Buf.lines d') = true)).
Proof.
  split; [reflexivity|].
  destruct d as [r ls f m u]; unfold rope_synced; simpl.
  intros Hsync Hasc Hl Hcol.
  pose proof (ascii_line_of_doc ls row line Hasc Hl) as Hline.
  pose proof (lookup_lt_Some _ _ _ Hl) as Hrow.
  rewrite str_len_ascii in Hcol by exact Hline.
  destruct (row_offset_some ls row Hrow) as [p Hp].
  destruct (join_nl_focus ls row p line Hasc Hl Hp) as (A & B & HA & Hj & Hins).
  unfold Buf.insert_char; simpl.
  replace (length ls <=? row) with false by (symmetry; apply Nat.leb_gt; lia).
  rewrite Hl, str_len_ascii by exact Hline.
  replace (length line <? col) with false by (symmetry; apply Nat.ltb_ge; lia).
  rewrite str_insert_ascii by assumption.
  unfold Buf.get_char_position; simpl. rewrite row_offset_insert, Hp. simpl.
  unfold rope_insert_char. rewrite Hsync, Hj.
  replace (p + col <=? length (A ++ line ++ B)) with true
    by (symmetry; apply Nat.leb_le; rewrite !length_app; lia).
  eexists. split; [reflexivity|]. simpl. split; [reflexivity|]. split.
  - rewrite Hins, <- HA.
    rewrite take_app_add, drop_app_add, take_app_le, drop_app_le by lia.
    rewrite <- !app_assoc. reflexivity.
  - split; [reflexivity|]. split; [reflexivity|].
    intros Hc. apply forallb_ascii_insert; [exact Hasc|].
    rewrite is_ascii_app. apply andb_true_iff. split; [apply is_ascii_take; exact Hline|].
    simpl. rewrite Hc. apply is_ascii_drop. exact Hline.
Qed.

Lemma insert_char_keeps_rope_in_sync_witness :
  rope_synced DocumentEdit.doc_two_lines_ed /\
  forallb is_ascii (Buf.lines DocumentEdit.doc_two_lines_ed) = true /\
  Buf.lines DocumentEdit.doc_two_lines_ed !! 1 = Some (lit "cd") /\
  1 <= str_len (lit "cd") /\
  exists d', Buf.insert_char DocumentEdit.doc_two_lines_ed 1 1 120%N = Some d' /\
     Buf.lines d' = <[1 := take 1 (lit "cd") ++ 120%N :: drop 1 (lit "cd")]>
                      (Buf.lines DocumentEdit.doc_two_lines_ed) /\
     rope_synced d' /\ Buf.modified d' = true /\
     Buf.filename d' = Buf.filename DocumentEdit.doc_two_lines_ed /\
     ((120 <? 128)%N = true -> forallb is_ascii (Buf.lines d') = true).
Proof.
  split; [vm_compute; reflexivity|]. split; [vm_compute; reflexivity|].
  split; [reflexivity|]. split; [vm_compute; lia|].
  apply (insert_char_keeps_rope_in_sync DocumentEdit.doc_two_lines_ed 1 1 120%N (lit "cd"));
    [vm_compute; reflexivity | vm_compute; reflexivity | reflexivity | vm_compute; lia].
Defined.

(** On a Document in sync whose lines are ASCII, [delete_char(row, col)]
    at a line [row] and a column [col] before the line's end does not
    panic, returns [true], removes the char at byte [col], sets
    [modified], and leaves the rope in sync and the lines ASCII. *)
Theorem delete_char_keeps_rope_in_sync (d : Buf.Document) (row col : nat) (line : rstring) :
  rope_synced d -> forallb is_ascii (Buf.lines d) = true ->
  Buf.lines d !! row = Some line -> col < str_len line ->
  exists d', Buf.delete_char d row col = Some (true, d') /\
    Buf.lines d' = <[row := take col line ++ drop (S col) line]> (Buf.lines d) /\
    rope_synced d' /\ Buf.modified d' = true /\ Buf.filename d' = Buf.filename d /\
    forallb is_ascii (Buf.lines d') = true.
Proof.
  destruct d as [r ls f m u]; unfold rope_synced; simpl.
  intros Hsync Hasc Hl Hcol.
  pose proof (ascii_line_of_doc ls row line Hasc Hl) as Hline.
  pose proof (lookup_lt_Some _ _ _ Hl) as Hrow.
  destruct (row_offset_some ls row Hrow) as [p Hp].
  destruct (join_nl_focus ls row p line Hasc Hl Hp) as (A & B & HA & Hj & Hins).
  unfold Buf.delete_char; simpl.
  replace (length ls <=? row) with false by (symmetry; apply Nat.leb_gt; lia).
  rewrite Hl, (proj2 (Nat.ltb_lt _ _) Hcol).
  rewrite str_len_ascii in Hcol by exact Hline.
  destruct (str_remove_ascii line col Hline Hcol) as [ch Hrm]. rewrite Hrm.
  unfold Buf.get_char_position; simpl. rewrite row_offset_insert, Hp. simpl.
  unfold rope_remove. rewrite Hsync, Hj.
  replace ((p + col <=? p + col + 1) && (p + col + 1 <=? length (A ++ line ++ B))) with true
    by (symmetry; apply andb_true_iff; split; apply Nat.leb_le; rewrite ?length_app; lia).
  eexists. split; [reflexivity|]. simpl. split; [reflexivity|]. split.
  - rewrite Hins, <- HA.
    replace (length A + col + 1) with (length A + S col) by lia.
    rewrite take_app_add, drop_app_add, take_app_le, drop_app_le by lia.
    rewrite <- !app_assoc. reflexivity.
  - split; [reflexivity|]. split; [reflexivity|].
    apply forallb_ascii_insert; [exact Hasc|].
    rewrite is_ascii_app. apply andb_true_iff.
    split; [apply is_ascii_take | apply is_ascii_drop]; exact Hline.
Qed.

Lemma delete_char_keeps_rope_in_sync_witness :
  rope_synced DocumentEdit.doc_two_lines_ed /\
  forallb is_ascii (Buf.lines DocumentEdit.doc_two_lines_ed) = true /\
  Buf.lines DocumentEdit.doc_two_lines_ed !! 0 = Some (lit "ab") /\
  0 < str_len (lit "ab") /\
  exists d', Buf.delete_char DocumentEdit.doc_two_lines_ed 0 0 = Some (true, d') /\
    Buf.lines d' = <[0 := take 0 (lit "ab") ++ drop 1 (lit "ab")]>
                     (Buf.lines DocumentEdit.doc_two_lines_ed) /\
    rope_synced d' /\ Buf.modified d' = true /\
    Buf.filename d' = Buf.filename DocumentEdit.doc_two_lines_ed /\
    forallb is_ascii (Buf.lines d') = true.
Proof.
  split; [vm_compute; reflexivity|]. split; [vm_compute; reflexivity|].
  split; [reflexivity|]. split; [vm_compute; lia|].
  apply (delete_char_keeps_rope_in_sync DocumentEdit.doc_two_lines_ed 0 0 (lit "ab"));
    [vm_compute; reflexivity | vm_compute; reflexivity | reflexivity | vm_compute; lia].
Defined.

(** [save] on a Document with a filename stores the lines joined by
    newlines at that path (for a Document in sync: the rope's text),
    changes no other file, keeps the lines and rope and clears
    [modified]; without a filename it fails with "No filename
    specified" and writes nothing. *)
Theorem save_writes_rope_text (fs : FileSystem) (write_ok : bool) (d : Buf.Document) :
  (Buf.filename d = None -> Buf.save fs write_ok d = Err (Message "No filename specified")) /\
  (forall f, Buf.filename d = Some f ->
     (write_ok = false -> Buf.save fs write_ok d = Err Io) /\
     (write_ok = true ->
      exists d', Buf.save fs write_ok d = Ok (d', <[f := join_nl (Buf.lines d)]> fs) /\
        Buf.lines d' = Buf.lines d /\ Buf.rope d' = Buf.rope d /\
        Buf.filename d' = Buf.filename d /\ Buf.modified d' = false /\
        (rope_synced d -> <[f := join_nl (Buf.lines d)]> fs !! f = Some (Buf.rope d)) /\
        (forall g, g <> f -> <[f := join_nl (Buf.lines d)]> fs !! g = fs !! g))).
Proof.
  unfold Buf.save, fs_write. split; [intros H; rewrite H; reflexivity|].
  intros f Hf. rewrite Hf. split; intros ->; [reflexivity|].
  eexists. split; [reflexivity|]. simpl.
  split_and!; try reflexivity.
  - intros Hs. rewrite lookup_insert_eq, Hs. reflexivity.
  - intros g Hg. apply lookup_insert_ne. congruence.
Qed.

(** Edits outside the text change nothing: [insert_char] on a row past
    the last line returns without touching the Document (not even
    [modified]); [delete_char] on such a row, or at a column at or past
    the line's end, returns [false] and changes nothing. *)
Theorem edits_out_of_range_are_noops (d : Buf.Document) (row col : nat) (c : rchar) :
  (length (Buf.lines d) <= row ->
     Buf.insert_char d row col c = Some d /\ Buf.delete_char d row col = Some (false, d)) /\
  (forall line, Buf.lines d !! row = Some line -> str_len line <= col ->
     Buf.delete_char d row col = Some (false, d)).
Proof.
  split.
  - intros H. unfold Buf.insert_char, Buf.delete_char.
    rewrite (proj2 (Nat.leb_le _ _) H). split; reflexivity.
  - intros line Hl Hc. unfold Buf.delete_char.
    rewrite (proj2 (Nat.leb_gt _ _) (lookup_lt_Some _ _ _ Hl)), Hl.
    rewrite (proj2 (Nat.ltb_ge _ _) Hc). reflexivity.
Qed.

End DocumentSync.

(* ------------------------------------------------------------------ *)
(** * The editor's own Document (src/cli/editor.rs) *)

Module EditorDocument.

(** [Document::save] then [Document::from_file] of src/cli/editor.rs
    gives the lines back for the sequences [join("\n")] and
    [str::lines] agree on, and also for the single empty line (an empty
    file reads back as one empty line). *)
Theorem editor_save_then_from_file (fs : FileSystem) (write_ok : bool) (d : Ed.Document)
    (f : rstring) :
  Ed.filename d = Some f ->
  roundtrip_safe (Ed.lines d) = true \/ Ed.lines d = [[]] ->
  (write_ok = false -> Ed.save fs write_ok d = Err Io) /\
  (write_ok = true ->
   exists d' fs' d'',
     Ed.save fs write_ok d = Ok (d', fs') /\ Ed.from_file fs' f = Ok d'' /\
     Ed.lines d'' = Ed.lines d /\ Ed.modified d' = false).
Proof.
  intros Hf Hsafe. unfold Ed.save, fs_write. rewrite Hf.
  split; intros ->; [reflexivity|].
  eexists _, _, _. split; [reflexivity|].
  unfold Ed.from_file. rewrite lookup_insert_eq. split; [reflexivity|].
  simpl. split; [|reflexivity]. destruct Hsafe as [Hsafe| ->]; [|reflexivity].
  rewrite str_lines_join_nl by exact Hsafe.
  rewrite bool_decide_eq_false_2; [reflexivity|].
  intros E. rewrite E in Hsafe. discriminate.
Qed.

Definition ed_empty_doc : Ed.Document := Ed.mkDocument [[]] (Some (lit "e.txt")) true.

Lemma editor_save_then_from_file_witness :
  Ed.filename ed_empty_doc = Some (lit "e.txt") /\
  (roundtrip_safe (Ed.lines ed_empty_doc) = true \/ Ed.lines ed_empty_doc = [[]]) /\
  (true = false -> Ed.save ∅ true ed_empty_doc = Err Io) /\
  (true = true ->
   exists d' fs' d'',
     Ed.save ∅ true ed_empty_doc = Ok (d', fs') /\ Ed.from_file fs' (lit "e.txt") = Ok d'' /\
     Ed.lines d'' = Ed.lines ed_empty_doc /\ Ed.modified d' = false).
Proof.
  split; [reflexivity|]. split; [right; reflexivity|].
  apply (editor_save_then_from_file ∅ true ed_empty_doc (lit "e.txt"));
    [reflexivity | right; reflexivity].
Defined.

(** [Document::from_file] of src/cli/editor.rs fails with an I/O error
    on a missing file, and otherwise gives a Document with at least one
    line, the file's path and [modified] false. *)
Theorem editor_from_file_nonempty (fs : FileSystem) (f : rstring) :
  (fs !! f = None -> Ed.from_file fs f = Err Io) /\
  (forall d, Ed.from_file fs f = Ok d ->
     Ed.lines d <> [] /\ Ed.filename d = Some f /\ Ed.modified d = false).
Proof.
  unfold Ed.from_file. split; [intros ->; reflexivity|].
  intros d. destruct (fs !! f) as [content|]; [|discriminate].
  intros H. injection H as <-. simpl. split_and!; try reflexivity.
  case_bool_decide as E; [discriminate|exact E].
Qed.

(** On an ASCII line, [insert_char] of src/cli/editor.rs never panics:
    a column past the end appends the char, another column inserts it
    there; [delete_char] at the column where it landed removes it again
    and gives the lines back. *)
Theorem editor_insert_then_delete (d : Ed.Document) (row col : nat) (c : rchar)
    (line : rstring) :
  Ed.lines d !! row = Some line -> is_ascii line = true ->
  exists d1 d2,
    Ed.insert_char d row col c = Some d1 /\
    Ed.lines d1 = <[row := if length line <? col then line ++ [c]
                           else take col line ++ c :: drop col line]> (Ed.lines d) /\
    Ed.modified d1 = true /\
    Ed.delete_char d1 row (Nat.min col (length line)) = Some (true, d2) /\
    Ed.lines d2 = Ed.lines d.
Proof.
  destruct d as [ls f m]; simpl. intros Hl Hasc.
  pose proof (lookup_lt_Some _ _ _ Hl) as Hrow.
  unfold Ed.insert_char; simpl.
  replace (length ls <=? row) with false by (symmetry; apply Nat.leb_gt; lia).
  rewrite Hl, str_len_ascii by exact Hasc.
  (* the line after the insertion, and where the char sits *)
  assert (Hins : exists l',
    (if length line <? col then Some (str_push line c) else str_insert line col c) = Some l' /\
    l' = (if length line <? col then line ++ [c] else take col line ++ c :: drop col line) /\
    l' = take (Nat.min col (length line)) line ++ c :: drop (Nat.min col (length line)) line).
  { destruct (length line <? col) eqn:E.
    - apply Nat.ltb_lt in E. eexists. split; [reflexivity|]. split; [reflexivity|].
      rewrite Nat.min_r by lia. rewrite take_ge, drop_ge by lia. reflexivity.
    - apply Nat.ltb_ge in E. rewrite str_insert_ascii by assumption.
      eexists. split; [reflexivity|]. split; [reflexivity|].
      rewrite Nat.min_l by exact E. reflexivity. }
  destruct Hins as (l' & Hl' & Hshape & Hmid). rewrite Hl'.
  eexists _, _. split; [reflexivity|]. simpl. split; [rewrite Hshape; reflexivity|].
  split; [reflexivity|].
  unfold Ed.delete_char; simpl. rewrite length_insert.
  replace (length ls <=? row) with false by (symmetry; apply Nat.leb_gt; lia).
  rewrite list_lookup_insert_eq by exact Hrow.
  rewrite Hmid.
  replace (Nat.min col (length line) <? str_len (take (Nat.min col (length line)) line ++ c
             :: drop (Nat.min col (length line)) line)) with true
    by (symmetry; apply Nat.ltb_lt; apply str_len_inserted_ascii; [exact Hasc | lia]).
  rewrite str_remove_inserted_ascii by (first [exact Hasc | lia]).
  split; [reflexivity|]. simpl.
  rewrite list_insert_insert_eq. apply list_insert_id. exact Hl.
Qed.

Definition ed_doc_ab : Ed.Document := Ed.mkDocument [lit "ab"] (Some (lit "a.txt")) false.

Lemma editor_insert_then_delete_witness :
  Ed.lines ed_doc_ab !! 0 = Some (lit "ab") /\ is_ascii (lit "ab") = true /\
  exists d1 d2,
    Ed.insert_char ed_doc_ab 0 5 99%N = Some d1 /\
    Ed.lines d1 = <[0 := if length (lit "ab") <? 5 then lit "ab" ++ [99%N]
                         else take 5 (lit "ab") ++ 99%N :: drop 5 (lit "ab")]> (Ed.lines ed_doc_ab) /\
    Ed.modified d1 = true /\
    Ed.delete_char d1 0 (Nat.min 5 (length (lit "ab"))) = Some (true, d2) /\
    Ed.lines d2 = Ed.lines ed_doc_ab.
Proof.
  split; [reflexivity|]. split; [vm_compute; reflexivity|].
  apply editor_insert_then_delete; [reflexivity | vm_compute; reflexivity].
Defined.

End EditorDocument.

(* ------------------------------------------------------------------ *)
(** * The shell's input line and history *)

Lemma str_len_app (l k : rstring) : str_len (l ++ k) = str_len l + str_len k.
Proof. induction l as [|a l IH]; simpl; [reflexivity|]. rewrite IH. lia. Qed.

Lemma utf8_len_pos (c : rchar) : 1 <= utf8_len c.
Proof. unfold utf8_len. repeat case_match; lia. Qed.

(** Byte offsets strictly inside the encoding of a last char are not
    char boundaries. *)
Lemma str_insert_inside_last (l : rstring) (c d : rchar) (k : nat) :
  0 < k < utf8_len c -> str_insert (l ++ [c]) (str_len l + k) d = None.
Proof.
  intros Hk. induction l as [|a l IH].
  - simpl. destruct k as [|k']; [lia|]. cbn [str_insert].
    rewrite (proj2 (Nat.ltb_lt _ _) (proj2 Hk)). reflexivity.
  - pose proof (utf8_len_pos a). simpl.
    destruct (utf8_len a + str_len l + k) as [|n] eqn:E; [lia|].
    cbn [str_insert]. rewrite <- E.
    replace (utf8_len a + str_len l + k <? utf8_len a) with false
      by (symmetry; apply Nat.ltb_ge; lia).
    replace (utf8_len a + str_len l + k - utf8_len a) with (str_len l + k) by lia.
    rewrite IH. reflexivity.
Qed.

Lemma str_remove_inside_last (l : rstring) (c : rchar) (k : nat) :
  0 < k < utf8_len c -> str_remove (l ++ [c]) (str_len l + k) = None.
Proof.
  intros Hk. induction l as [|a l IH].
  - simpl. destruct k as [|k']; [lia|]. cbn [str_remove].
    rewrite (proj2 (Nat.ltb_lt _ _) (proj2 Hk)). reflexivity.
  - pose proof (utf8_len_pos a). simpl.
    destruct (utf8_len a + str_len l + k) as [|n] eqn:E; [lia|].
    cbn [str_remove]. rewrite <- E.
    replace (utf8_len a + str_len l + k <? utf8_len a) with false
      by (symmetry; apply Nat.ltb_ge; lia).
    replace (utf8_len a + str_len l + k - utf8_len a) with (str_len l + k) by lia.
    rewrite IH. reflexivity.
Qed.

Lemma is_ascii_insert (l : rstring) (k : nat) (c : rchar) :
  is_ascii l = true -> (c <? 128)%N = true -> is_ascii (take k l ++ c :: drop k l) = true.
Proof.
  intros Hl Hc. rewrite is_ascii_app. apply andb_true_iff.
  split; [apply is_ascii_take; exact Hl|]. simpl. rewrite Hc. apply is_ascii_drop. exact Hl.
Qed.

Lemma is_ascii_remove (l : rstring) (k : nat) :
  is_ascii l = true -> is_ascii (take k l ++ drop (S k) l) = true.
Proof.
  intros Hl. rewrite is_ascii_app. apply andb_true_iff.
  split; [apply is_ascii_take | apply is_ascii_drop]; exact Hl.
Qed.

Module ShellInput.
Import Sh.

(** The input line is ASCII and the cursor is within it. *)
Definition input_ok (s : Shell) : Prop :=
  is_ascii (input_line s) = true /\ cursor_pos s <= str_len (input_line s).

(** On an ASCII input line with the cursor within it, typing an ASCII
    char inserts it at the cursor and moves the cursor past it; none of
    [input_char], [input_backspace], [input_delete], [move_cursor_left],
    [move_cursor_right] panics, and each keeps the cursor within the
    line. *)
Theorem input_edits_keep_cursor_in_line (s : Shell) (c : rchar) :
  input_ok s -> (c <? 128)%N = true ->
  (exists s', input_char s c = Some s' /\ input_ok s' /\
     input_line s' = take (cursor_pos s) (input_line s) ++ c :: drop (cursor_pos s) (input_line s) /\
     cursor_pos s' = cursor_pos s + 1) /\
  (exists s', input_backspace s = Some s' /\ input_ok s') /\
  (exists s', input_delete s = Some s' /\ input_ok s') /\
  input_ok (move_cursor_left s) /\ input_ok (move_cursor_right s).
Proof.
  destruct s as [ls l k hz run h hp ch si rx th]. unfold input_ok; simpl.
  intros [Hl Hk] Hc. rewrite str_len_ascii in Hk by exact Hl.
  assert (Hins : is_ascii (take k l ++ c :: drop k l) = true) by (apply is_ascii_insert; assumption).
  split_and!.
  - unfold input_char; simpl. rewrite str_len_ascii by exact Hl.
    destruct (k =? length l) eqn:E.
    + apply Nat.eqb_eq in E. subst k. eexists. split; [reflexivity|]. simpl.
      rewrite take_ge, drop_ge by lia. unfold str_push.
      rewrite take_ge, drop_ge in Hins by lia.
      split_and!; try reflexivity; [exact Hins|].
      rewrite str_len_ascii by exact Hins. rewrite length_app. simpl. lia.
    + rewrite str_insert_ascii by assumption.
      eexists. split; [reflexivity|]. simpl. split_and!; try reflexivity; [exact Hins|].
      rewrite str_len_ascii by exact Hins.
      rewrite length_app, length_take. simpl. rewrite length_drop. apply Nat.eqb_neq in E. lia.
  - unfold input_backspace; simpl. destruct (0 <? k) eqn:E.
    + apply Nat.ltb_lt in E.
      destruct (str_remove_ascii l (k - 1) Hl ltac:(lia)) as [x Hx]. rewrite Hx.
      eexists. split; [reflexivity|]. simpl.
      split; [apply is_ascii_remove; exact Hl|].
      rewrite str_len_ascii by (apply is_ascii_remove; exact Hl).
      rewrite length_app, length_take, length_drop. lia.
    + eexists. split; [reflexivity|]. simpl. rewrite str_len_ascii by exact Hl. auto.
  - unfold input_delete; simpl. rewrite str_len_ascii by exact Hl.
    destruct (k <? length l) eqn:E.
    + apply Nat.ltb_lt in E.
      destruct (str_remove_ascii l k Hl E) as [x Hx]. rewrite Hx.
      eexists. split; [reflexivity|]. simpl.
      split; [apply is_ascii_remove; exact Hl|].
      rewrite str_len_ascii by (apply is_ascii_remove; exact Hl).
      rewrite length_app, length_take, length_drop. lia.
    + eexists. split; [reflexivity|]. simpl. rewrite str_len_ascii by exact Hl. auto.
  - unfold move_cursor_left; cbn [input_line cursor_pos].
    destruct (0 <? k); exact Hl.
  - unfold move_cursor_left; cbn [input_line cursor_pos].
    destruct (0 <? k); cbn [set_cursor input_line cursor_pos];
      rewrite str_len_ascii by exact Hl; lia.
  - unfold move_cursor_right; cbn [input_line cursor_pos].
    destruct (k <? str_len l); exact Hl.
  - unfold move_cursor_right; cbn [input_line cursor_pos]. rewrite str_len_ascii by exact Hl.
    destruct (k <? length l) eqn:E; cbn [set_cursor input_line cursor_pos];
      rewrite str_len_ascii by exact Hl; [apply Nat.ltb_lt in E|]; lia.
Qed.

Definition shell_typing : Shell :=
  mkShell [] (lit "ls -l") 2 true true [] 0 None None None 0.

Lemma input_edits_keep_cursor_in_line_witness :
  input_ok shell_typing /\ (97 <? 128)%N = true /\
  (exists s', input_char shell_typing 97%N = Some s' /\ input_ok s' /\
     input_line s' = take (cursor_pos shell_typing) (input_line shell_typing) ++
                     97%N :: drop (cursor_pos shell_typing) (input_line shell_typing) /\
     cursor_pos s' = cursor_pos shell_typing + 1) /\
  (exists s', input_backspace shell_typing = Some s' /\ input_ok s') /\
  (exists s', input_delete shell_typing = Some s' /\ input_ok s') /\
  input_ok (move_cursor_left shell_typing) /\ input_ok (move_cursor_right shell_typing).
Proof.
  assert (H : input_ok shell_typing) by (split; vm_compute; [reflexivity | lia]).
  split; [exact H|]. split; [reflexivity|].
  apply input_edits_keep_cursor_in_line; [exact H | reflexivity].
Defined.

(** On an ASCII input line, Backspace right after typing an ASCII char
    gives back the line and the cursor. *)
Theorem input_char_then_backspace (s : Shell) (c : rchar) :
  input_ok s -> (c <? 128)%N = true ->
  exists s1 s2, input_char s c = Some s1 /\ input_backspace s1 = Some s2 /\
    input_line s2 = input_line s /\ cursor_pos s2 = cursor_pos s.
Proof.
  destruct s as [ls l k hz run h hp ch si rx th]. unfold input_ok; simpl.
  intros [Hl Hk] Hc. rewrite str_len_ascii in Hk by exact Hl.
  assert (H1 : exists l1, (if k =? str_len l then Some (str_push l c) else str_insert l k c)
                          = Some l1 /\ l1 = take k l ++ c :: drop k l).
  { rewrite str_len_ascii by exact Hl. destruct (k =? length l) eqn:E.
    - apply Nat.eqb_eq in E. subst k. rewrite take_ge, drop_ge by lia. eauto.
    - rewrite str_insert_ascii by assumption. eauto. }
  destruct H1 as (l1 & Hl1 & ->).
  unfold input_char; simpl. rewrite Hl1.
  eexists _, _. split; [reflexivity|].
  unfold input_backspace; simpl.
  replace (0 <? k + 1) with true by (symmetry; apply Nat.ltb_lt; lia).
  replace (k + 1 - 1) with k by lia.
  rewrite str_remove_inserted_ascii by assumption.
  split_and!; reflexivity.
Qed.

Lemma input_char_then_backspace_witness :
  input_ok shell_typing /\ (120 <? 128)%N = true /\
  exists s1 s2, input_char shell_typing 120%N = Some s1 /\ input_backspace s1 = Some s2 /\
    input_line s2 = input_line shell_typing /\ cursor_pos s2 = cursor_pos shell_typing.
Proof.
  assert (H : input_ok shell_typing) by (split; vm_compute; [reflexivity | lia]).
  split; [exact H|]. split; [reflexivity|].
  apply input_char_then_backspace; [exact H | reflexivity].
Defined.

(** [cursor_pos] counts typed chars but is used as a byte index: after
    a char of two or more UTF-8 bytes is typed at the end of the line,
    the cursor lies inside that char, so typing the next char, or
    pressing Delete, panics. *)
Theorem multibyte_char_breaks_input (s : Shell) (c d : rchar) :
  cursor_pos s = str_len (input_line s) -> 2 <= utf8_len c ->
  exists s', input_char s c = Some s' /\
    cursor_pos s' = str_len (input_line s) + 1 /\
    input_char s' d = None /\ input_delete s' = None.
Proof.
  destruct s as [ls l k hz run h hp ch si rx th]; simpl. intros -> Hc.
  unfold input_char; simpl. rewrite Nat.eqb_refl.
  eexists. split; [reflexivity|]. simpl. split; [reflexivity|].
  unfold str_push. rewrite str_len_app. simpl.
  replace (str_len l + 1 =? str_len l + (utf8_len c + 0)) with false
    by (symmetry; apply Nat.eqb_neq; lia).
  rewrite str_insert_inside_last by lia. split; [reflexivity|].
  unfold input_delete; simpl. rewrite str_len_app. simpl.
  replace (str_len l + 1 <? str_len l + (utf8_len c + 0)) with true
    by (symmetry; apply Nat.ltb_lt; lia).
  rewrite str_remove_inside_last by lia. reflexivity.
Qed.

Definition shell_empty_input : Shell :=
  mkShell [] [] 0 true true [] 0 None None None 0.

Lemma multibyte_char_breaks_input_witness :
  cursor_pos shell_empty_input = str_len (input_line shell_empty_input) /\
  2 <= utf8_len DocumentEdit.e_acute /\
  exists s', input_char shell_empty_input DocumentEdit.e_acute = Some s' /\
    cursor_pos s' = str_len (input_line shell_empty_input) + 1 /\
    input_char s' 97%N = None /\ input_delete s' = None.
Proof.
  split; [reflexivity|]. split; [vm_compute; lia|].
  apply multibyte_char_breaks_input; [reflexivity | vm_compute; lia].
Defined.

(** From a history cursor [p] with [0 < p <= len], [history_up] shows
    entry [p - 1], and [history_down] then brings the cursor back to
    [p]: it shows entry [p], or an empty line when [p] is one past the
    last entry; the input cursor ends at the end of the shown line. *)
Theorem history_up_then_down (s : Shell) :
  0 < history_position s <= length (command_history s) ->
  exists e s1,
    command_history s !! (history_position s - 1) = Some e /\
    history_up s = Some s1 /\ input_line s1 = e /\ cursor_pos s1 = str_len e /\
    exists s2, history_down s1 = Some s2 /\ history_position s2 = history_position s /\
    input_line s2 = default [] (command_history s !! history_position s) /\
    cursor_pos s2 = str_len (input_line s2) /\
    command_history s2 = command_history s.
Proof.
  destruct s as [ls l k hz run h p ch si rx th]; simpl. intros Hp.
  destruct (lookup_lt_is_Some_2 h (p - 1)) as [e He]; [lia|].
  assert (Hne : h <> []) by (intros ->; simpl in Hp; lia).
  exists e. unfold history_up; simpl.
  rewrite bool_decide_eq_false_2 by exact Hne.
  assert (Hp0 : (0 <? p) = true) by (apply Nat.ltb_lt; lia). rewrite Hp0. simpl. rewrite He.
  eexists. split; [reflexivity|]. split; [reflexivity|]. split; [reflexivity|].
  split; [reflexivity|].
  unfold history_down; simpl. rewrite bool_decide_eq_false_2 by exact Hne. simpl.
  unfold usize_sub. replace (1 <=? length h) with true
    by (symmetry; apply Nat.leb_le; destruct h; [congruence|simpl; lia]).
  destruct (p - 1 <? length h - 1) eqn:E.
  - apply Nat.ltb_lt in E.
    destruct (lookup_lt_is_Some_2 h p) as [e' He']; [lia|].
    replace (p - 1 + 1) with p by lia. rewrite He'.
    eexists. split; [reflexivity|]. unfold set_cursor, set_input, set_history; simpl.
    unfold lookup in He' |- *. rewrite He'. split_and!; reflexivity.
  - apply Nat.ltb_ge in E. replace (p - 1 =? length h - 1) with true
      by (symmetry; apply Nat.eqb_eq; lia).
    replace p with (length h) by lia.
    eexists. split; [reflexivity|]. unfold set_cursor, set_input, set_history; simpl;
      pose proof (lookup_ge_None_2 h (length h) ltac:(lia)) as Hn.
    unfold lookup in Hn |- *. rewrite Hn. split_and!; reflexivity.
Qed.

Definition shell_after_two : Shell :=
  mkShell [] [] 0 true true [lit "ls"; lit "pwd"] 2 None None None 0.

Lemma history_up_then_down_witness :
  0 < history_position shell_after_two <= length (command_history shell_after_two) /\
  exists e s1,
    command_history shell_after_two !! (history_position shell_after_two - 1) = Some e /\
    history_up shell_after_two = Some s1 /\ input_line s1 = e /\ cursor_pos s1 = str_len e /\
    exists s2, history_down s1 = Some s2 /\ history_position s2 = history_position shell_after_two /\
    input_line s2 = default [] (command_history shell_after_two !! history_position shell_after_two) /\
    cursor_pos s2 = str_len (input_line s2) /\
    command_history s2 = command_history shell_after_two.
Proof.
  split; [vm_compute; lia|]. apply history_up_then_down. vm_compute. lia.
Defined.

(** [Shell::new] never captures the child's stdin, starts with an empty
    input line and history, and ends its lines with an empty prompt
    line; the session is running exactly when the spawn succeeded, and
    then holds the child, the receiver and the two reader threads. *)
Theorem shell_new_state (hz : bool) (sp : SpawnOutcome) :
  let s := Shell_new hz sp in
  child_stdin s = None /\ input_line s = [] /\ cursor_pos s = 0 /\
  command_history s = [] /\ history_position s = 0 /\ is_horizontal s = hz /\
  last (lines s) = Some [] /\
  (running s = true <-> exists pid rx, sp = SpawnOk pid rx) /\
  (forall pid rx, sp = SpawnOk pid rx ->
     child s = Some pid /\ output_receiver s = Some rx /\ reader_thread_handles s = 2 /\
     lines s = shell_banner ++ [spawned_msg; []]).
Proof.
  destruct sp as [pid rx|e| |]; simpl; split_and!; try reflexivity;
    try (split; [intros H; discriminate H | intros (? & ? & H); discriminate H]);
    try (intros ? ? H; discriminate H).
  - split; [intros _; eauto | reflexivity].
  - intros pid' rx' H. injection H as <- <-. split_and!; reflexivity.
Qed.

End ShellInput.

(* ------------------------------------------------------------------ *)
(** * A session built by [Shell::new] never reaches the child's stdin *)

Module ShellFresh.
Import Sh.

(** Whenever [execute_command] returns on a session without a stdin
    handle, it has written nothing, stopped the session and kept the
    handle absent; on a non-["exit"] line it also reports the missing
    stream. *)
Lemma execute_no_stdin (s : Shell) (w : World) (sleep : World -> World)
    (r : result unit) (m : Mach) :
  child_stdin s = None -> (forall w', stdin_log (sleep w') = stdin_log w') ->
  run (execute_command sleep) s w = Ret r m ->
  r = Ok tt /\ child_stdin (sh m) = None /\ stdin_log (world m) = stdin_log w /\
  running (sh m) = false /\
  (rstring_eqb (trim (input_line s)) exit_cmd = false -> stdin_unavailable_msg ∈ lines (sh m)).
Proof.
  intros Hsi0 Hsl H. unfold run, execute_command in H.
  apply ShellSession.bind_inv in H as (u & [s1 w1 h1] & Hp & H).
  destruct (ShellFrame.frames_poll_output _ _ _ Hp)
    as (Hh & Hin & _ & Hsi & _ & _ & _ & _ & _ & _ & Hlog).
  simpl in *. subst h1. rewrite Hsi0 in Hsi.
  unfold gets, mbind at 1 in H. simpl in H. rewrite Hin in H.
  destruct (rstring_eqb (trim (input_line s)) exit_cmd) eqn:Ex.
  - unfold with_lock, lock, unlock, gets, write_line, flush, modify, mret, mbind in H.
    cbn in H. rewrite Hsi in H. cbn in H. injection H as <- <-. cbn.
    split_and!; auto. intros Hf. discriminate Hf.
  - apply ShellSession.bind_inv in H as (r1 & m2 & Hlk & H).
    unfold with_lock, lock, unlock, gets, write_line, flush, modify, mret, mbind in Hlk.
    cbn in Hlk. rewrite Hsi in Hlk. cbn in Hlk. injection Hlk as <- <-.
    unfold modify, modify_world, mbind, mret in H. cbn in H.
    destruct (poll_output _) as [[] m3|] eqn:Hp2; [|discriminate].
    injection H as <- <-.
    destruct (ShellFrame.frames_poll_output _ _ _ Hp2)
      as (_ & _ & _ & Hsi3 & _ & _ & [ext Hl] & Hrun & _ & _ & Hlog3).
    simpl in *. split_and!.
    + reflexivity.
    + rewrite Hsi3. exact Hsi.
    + rewrite Hlog3, Hsl. exact Hlog.
    + apply Hrun. reflexivity.
    + intros _. rewrite Hl. apply elem_of_app. left. apply elem_of_app. right. left.
Qed.

(** [Shell::new] never stores a stdin handle, no operation of the shell
    stores one, and [execute_command] on a session without one writes
    nothing to the child (whatever else happens in the world meanwhile
    writes nothing either) and stops the session.  So a shell built by
    [Shell::new] never sends a command to the child: the first command
    it runs stops it, with "Shell not running or stdin unavailable."
    unless the command is "exit". *)
Theorem shell_new_never_writes_to_child :
  (forall hz sp, child_stdin (Shell_new hz sp) = None) /\
  (forall (s s' : Shell) (c : rchar), child_stdin s = None ->
     input_char s c = Some s' \/ input_backspace s = Some s' \/ input_delete s = Some s' \/
     history_up s = Some s' \/ history_down s = Some s' \/
     s' = move_cursor_left s \/ s' = move_cursor_right s ->
     child_stdin s' = None) /\
  (forall (s : Shell) (w : World) (m : Mach), child_stdin s = None ->
     run poll_output s w = Ret tt m ->
     child_stdin (sh m) = None /\ stdin_log (world m) = stdin_log w) /\
  (forall (s : Shell) (w : World) (sleep : World -> World) (r : result unit) (m : Mach),
     child_stdin s = None -> (forall w', stdin_log (sleep w') = stdin_log w') ->
     run (execute_command sleep) s w = Ret r m ->
     r = Ok tt /\ child_stdin (sh m) = None /\ stdin_log (world m) = stdin_log w /\
     running (sh m) = false /\
     (rstring_eqb (trim (input_line s)) exit_cmd = false ->
        stdin_unavailable_msg ∈ lines (sh m))).
Proof.
  split_and!.
  - intros hz sp. destruct sp; reflexivity.
  - intros s s' c Hs Hop.
    destruct s as [ls l k hz run h hp ch si rx th]; simpl in Hs; subst si.
    destruct Hop as [H|[H|[H|[H|[H|[H|H]]]]]].
    + unfold input_char in H; simpl in H.
      destruct (if k =? str_len l then _ else _); [|discriminate].
      injection H as <-. reflexivity.
    + unfold input_backspace in H; simpl in H. destruct (0 <? k).
      * destruct (str_remove l (k - 1)) as [[]|]; [|discriminate]. injection H as <-. reflexivity.
      * injection H as <-. reflexivity.
    + unfold input_delete in H; simpl in H. destruct (k <? str_len l).
      * destruct (str_remove l k) as [[]|]; [|discriminate]. injection H as <-. reflexivity.
      * injection H as <-. reflexivity.
    + unfold history_up in H; simpl in H. destruct (_ && _).
      * destruct (h !! (hp - 1)); [|discriminate]. injection H as <-. reflexivity.
      * injection H as <-. reflexivity.
    + unfold history_down in H; simpl in H. unfold usize_sub in H.
      repeat (match type of H with
              | context [if ?b then _ else _] => destruct b
              | context [match ?o with Some _ => _ | None => _ end] => destruct o
              end; try discriminate H);
        injection H as <-; reflexivity.
    + subst s'. unfold move_cursor_left. simpl. destruct (0 <? k); reflexivity.
    + subst s'. unfold move_cursor_right. simpl. destruct (k <? str_len l); reflexivity.
  - intros s w m Hs Hp. unfold run in Hp.
    destruct (ShellFrame.frames_poll_output _ _ _ Hp)
      as (_ & _ & _ & Hsi & _ & _ & _ & _ & _ & _ & Hlog).
    simpl in *. rewrite Hsi, Hlog. auto.
  - exact execute_no_stdin.
Qed.

End ShellFresh.

(* ------------------------------------------------------------------ *)
(** * The editor's buffer list *)

Module EditorBuffers.
Import EdBuffers.

Section WithBuffer.
Context {Buffer : Type}.

(** At least one buffer, and the active index points into the list. *)
Definition buffers_wf (e : @Editor Buffer) : Prop :=
  1 <= length (buffers e) /\ active_buffer e < length (buffers e).

(** [open_shell] always leaves a well-formed buffer list, with the new
    shell buffer active; on a well-formed list [close_current_buffer]
    never panics and keeps it well-formed: with a single buffer it
    changes nothing, otherwise it removes the active buffer and moves
    the active index back only when it was the last one. *)
Theorem buffer_list_invariant :
  (forall (e : @Editor Buffer) b,
     buffers_wf (open_shell e b) /\ active_buffer (open_shell e b) = length (buffers e)) /\
  (forall e : @Editor Buffer, buffers_wf e ->
     exists e', close_current_buffer e = Some e' /\ buffers_wf e' /\
       (length (buffers e) = 1 -> e' = e) /\
       (1 < length (buffers e) ->
          buffers e' = take (active_buffer e) (buffers e) ++ drop (S (active_buffer e)) (buffers e) /\
          active_buffer e' = Nat.min (active_buffer e) (length (buffers e) - 2) /\
          mode e' = mode e /\ previous_mode e' = previous_mode e)).
Proof.
  split.
  - intros e b. unfold buffers_wf, open_shell; simpl. rewrite length_app. simpl. lia.
  - intros [bs a md pm] [H1 Ha]; simpl in *. unfold close_current_buffer; simpl.
    destruct (length bs <=? 1) eqn:E.
    + apply Nat.leb_le in E. eexists. split; [reflexivity|].
      split; [split; simpl; lia|]. split; [reflexivity | intros; lia].
    + apply Nat.leb_gt in E. unfold vec_remove.
      rewrite (proj2 (Nat.ltb_lt _ _) Ha).
      assert (Hl : length (take a bs ++ drop (S a) bs) = length bs - 1)
        by (rewrite length_app, length_take, length_drop; lia).
      rewrite Hl. eexists. split; [reflexivity|].
      destruct (length bs - 1 <=? a) eqn:E2;
        [apply Nat.leb_le in E2 | apply Nat.leb_gt in E2];
        (split; [unfold buffers_wf; simpl; rewrite Hl; lia|]);
        (split; [intros; lia|]); intros _; simpl; split_and!; auto; lia.
Qed.

(** Closing the buffer that [open_shell] just opened gives back the
    previous buffer list, but the last of those buffers becomes active,
    whichever was active before, and the mode stays [Shell]; on an
    empty list the shell buffer is the last one and is kept. *)
Theorem open_shell_then_close (e : @Editor Buffer) (b : Buffer) :
  (buffers e = [] -> close_current_buffer (open_shell e b) = Some (open_shell e b)) /\
  (buffers e <> [] ->
     close_current_buffer (open_shell e b) =
     Some (mkEditor (buffers e) (length (buffers e) - 1) ShellMode (mode e))).
Proof.
  destruct e as [bs a md pm]; simpl. split.
  - intros ->. reflexivity.
  - intros Hne. assert (Hn : 1 <= length bs) by (destruct bs; [congruence | simpl; lia]).
    unfold close_current_buffer, open_shell, vec_remove; simpl.
    rewrite length_app. simpl.
    replace (length bs + 1 <=? 1) with false by (symmetry; apply Nat.leb_gt; lia).
    replace (length bs + 1 - 1) with (length bs) by lia.
    replace (length bs <? length bs + 1) with true by (symmetry; apply Nat.ltb_lt; lia).
    rewrite take_app_length, drop_app_ge by lia.
    rewrite length_app. simpl.
    replace (S (length bs) - length bs) with 1 by lia. simpl.
    rewrite app_nil_r, Nat.add_0_r, Nat.leb_refl. reflexivity.
Qed.

End WithBuffer.

End EditorBuffers.

(* ------------------------------------------------------------------ *)
(** * Splitting a window *)

Module WindowEdges.
Import Win.

(** [split] never returns [Err], and both windows it returns are marked
    active.  A horizontal split panics exactly when [y + height / 2]
    overflows [usize]; otherwise the top window has zero height exactly
    when the window has at most one row, and the bottom one only when
    the window has none.  The same holds for a vertical split with [x]
    and widths. *)
Theorem split_small_windows (w : Window) :
  ((y w + height w / 2 < 2 ^ 64)%N ->
     exists a b, split w Horizontal = Some (Ok (a, b)) /\
       is_active a = true /\ is_active b = true /\
       (height a = 0%N <-> (height w <= 1)%N) /\ (height b = 0%N <-> height w = 0%N)) /\
  ((2 ^ 64 <= y w + height w / 2)%N -> split w Horizontal = None) /\
  ((x w + width w / 2 < 2 ^ 64)%N ->
     exists a b, split w Vertical = Some (Ok (a, b)) /\
       is_active a = true /\ is_active b = true /\
       (width a = 0%N <-> (width w <= 1)%N) /\ (width b = 0%N <-> width w = 0%N)) /\
  ((2 ^ 64 <= x w + width w / 2)%N -> split w Vertical = None).
Proof.
  pose proof (N.div_mod (height w) 2 ltac:(lia)) as Hh.
  pose proof (N.div_mod (width w) 2 ltac:(lia)) as Hw.
  pose proof (N.mod_lt (height w) 2 ltac:(lia)).
  pose proof (N.mod_lt (width w) 2 ltac:(lia)).
  unfold split, usize_add; cbv zeta. WindowSplit.halves w.
  split_and!; intros Hb.
  - rewrite (proj2 (N.ltb_lt _ _) Hb).
    eexists _, _. split; [reflexivity|]. cbn -[N.div N.sub N.add N.pow].
    split_and!; try reflexivity; lia.
  - rewrite (proj2 (N.ltb_ge _ _) Hb). reflexivity.
  - rewrite (proj2 (N.ltb_lt _ _) Hb).
    eexists _, _. split; [reflexivity|]. cbn -[N.div N.sub N.add N.pow].
    split_and!; try reflexivity; lia.
  - rewrite (proj2 (N.ltb_ge _ _) Hb). reflexivity.
Qed.

(** A one-row window at the top of the screen, and one whose [y] is the
    largest [usize]. *)
Definition win_one_row : Window := mkWindow 0 0 80 1 0 0 0 0 None true.
Definition win_at_max : Window := mkWindow 0 (2 ^ 64 - 1) 80 2 0 0 0 0 None true.

Lemma split_small_windows_witness :
  (exists a b, split win_one_row Horizontal = Some (Ok (a, b)) /\ height a = 0%N /\
     height b = 1%N) /\
  split win_at_max Horizontal = None.
Proof.
  split.
  - destruct (proj1 (split_small_windows win_one_row) ltac:(vm_compute; reflexivity))
      as (a & b & Hs & _ & _ & Ha & _).
    exists a, b. split; [exact Hs|]. split; [apply Ha; vm_compute; discriminate|].
    vm_compute in Hs. injection Hs as _ <-. reflexivity.
  - apply (proj1 (proj2 (split_small_windows win_at_max))). vm_compute. discriminate.
Defined.

End WindowEdges.

(* ------------------------------------------------------------------ *)
(** * Listing the tabs *)

Module TabList.
Import Tabs.

(** On a well-formed manager [tab_list] numbers the tabs [0 .. n-1] in
    order, with distinct names, and the tab [get_current_tab] returns is
    listed under the current index. *)
Theorem tab_list_numbers_tabs {B : Type} (tm : @TabManager B) :
  TabProps.tabs_wf tm ->
  map fst (tab_list tm) = seq 0 (length (tabs tm)) /\
  NoDup (map snd (tab_list tm)) /\
  (forall t, get_current_tab tm = Some t ->
     id t = current_tab tm /\ (current_tab tm, name t) ∈ tab_list tm).
Proof.
  intros (Hid & _ & _ & Hnd & _). unfold tab_list, get_current_tab.
  rewrite !List.map_map. split_and!.
  - exact Hid.
  - exact Hnd.
  - intros t Ht.
    assert (Hi : map id (tabs tm) !! current_tab tm = Some (id t))
      by (rewrite list_lookup_fmap, Ht; reflexivity).
    rewrite Hid, lookup_seq in Hi. destruct Hi as [Hi _]. simpl in Hi.
    split; [exact Hi|].
    rewrite <- Hi. apply list_elem_of_fmap. exists t. split; [reflexivity|].
    eapply list_elem_of_lookup_2. exact Ht.
Qed.

Lemma tab_list_numbers_tabs_witness :
  TabProps.tabs_wf TabProps.tm_ab /\
  map fst (tab_list TabProps.tm_ab) = seq 0 (length (tabs TabProps.tm_ab)) /\
  NoDup (map snd (tab_list TabProps.tm_ab)) /\
  (forall t, get_current_tab TabProps.tm_ab = Some t ->
     id t = current_tab TabProps.tm_ab /\ (current_tab TabProps.tm_ab, name t) ∈ tab_list TabProps.tm_ab).
Proof.
  split; [exact TabProps.tm_ab_wf|]. apply tab_list_numbers_tabs. exact TabProps.tm_ab_wf.
Defined.

End TabList.

(* ------------------------------------------------------------------ *)
(** * Saving a buffer *)

Module BufferSave.

(** [Buffer] of buffer.rs without the tree-sitter fields ([parser],
    [tree], [language]), which [new], [from_shell] and [save] only
    initialise or leave alone. *)
Record Buffer := mkBuffer {
  document : Buf.Document;
  cursor_x : nat;
  cursor_y : nat;
  offset_x : nat;
  offset_y : nat;
  is_shell : bool;
  shell : option Sh.Shell;
  filename : option rstring;
}.

(** [Buffer::new]. *)
Definition Buffer_new : Buffer := mkBuffer Buf.Document_new 0 0 0 0 false None None.

(** [Buffer::from_shell], with the outcome of the spawn [Shell::new] makes. *)
Definition Buffer_from_shell (is_horizontal : bool) (sp : Sh.SpawnOutcome) : Buffer :=
  mkBuffer Buf.Document_new 0 0 0 0 true (Some (Sh.Shell_new is_horizontal sp)) None.

Definition set_document (d : Buf.Document) (b : Buffer) : Buffer :=
  mkBuffer d (cursor_x b) (cursor_y b) (offset_x b) (offset_y b) (is_shell b) (shell b)
    (filename b).

(** [Buffer::save]: the buffer and the file system afterwards. *)
Definition save (fs : FileSystem) (write_ok : bool) (b : Buffer)
    : result (Buffer * FileSystem) :=
  if is_shell b then Err (Message "Cannot save shell buffer")
  else
    match Buf.save fs write_ok (document b) with
    | Ok (d, fs') => Ok (set_document d b, fs')
    | Err e => Err e
    end.

(** A shell buffer is never saved: [save] fails with "Cannot save shell
    buffer", whatever the file system would do; a buffer from
    [Buffer::new] has no file name in its Document and fails with "No
    filename specified".  Otherwise [save] fails with the I/O error when
    the write fails, and when it succeeds it writes the Document's lines
    joined by newlines to the Document's file name (the buffer's own
    [filename] field is not used) and clears [modified]. *)
Theorem buffer_save_outcomes :
  (forall fs wok hz sp,
     save fs wok (Buffer_from_shell hz sp) = Err (Message "Cannot save shell buffer")) /\
  (forall fs wok b, is_shell b = true -> save fs wok b = Err (Message "Cannot save shell buffer")) /\
  (forall fs wok, save fs wok Buffer_new = Err (Message "No filename specified")) /\
  (forall fs b f, is_shell b = false -> Buf.filename (document b) = Some f ->
     save fs false b = Err Io /\
     exists b', save fs true b = Ok (b', <[f := join_nl (Buf.lines (document b))]> fs) /\
       Buf.lines (document b') = Buf.lines (document b) /\
       Buf.modified (document b') = false /\
       filename b' = filename b /\ is_shell b' = false).
Proof.
  split_and!.
  - reflexivity.
  - intros fs wok b H. unfold save. rewrite H. reflexivity.
  - reflexivity.
  - intros fs b f Hs Hf. unfold save, Buf.save, fs_write. rewrite Hs, Hf.
    split; [reflexivity|].
    eexists. split; [reflexivity|]. simpl. split_and!; auto.
Qed.

End BufferSave.
